(** * PseudoBank: the session mapper and the column transformation

    A shallow embedding of [src/pseudonymize.py]: the class [SessionMapper]
    ([_get_random_number], [get_fake_value], [get_summary]), the
    replacement loop of [interactive_pseudonymize] (step 6), and the
    dialogue that leads to it ([get_yes_no], the selection of step 3, the
    prefixes of step 4, the confirmation of step 5), with the properties of
    the pseudonym engine stated and proved over it. Loading and saving
    files, and what is printed, are left out. *)

From Stdlib Require Import ZArith NArith Ascii String DecimalString DecimalZ DecimalPos DecimalFacts.
From stdpp Require Import gmap strings list fin_maps.

Local Open Scope Z_scope.

(** ** Python values and exceptions *)

(** The exceptions the modelled code can meet: a failed subscript of a dict or
    of a data frame, and [random.choice] on an empty sequence. *)
Inductive exn : Type :=
| KeyError (key : string)
| IndexError.

Inductive outcome (A : Type) : Type :=
| Return (a : A)
| Raise (e : exn).
Arguments Return {A} a.
Arguments Raise {A} e.

(** ** [str(int)] and [str.zfill] *)

(** [str(n)] of a Python integer: the decimal digits, with a leading [-]
    for a negative number. *)
Definition str (n : Z) : string := NilZero.string_of_int (Z.to_int n).

Fixpoint zeros (k : nat) : string :=
  match k with
  | O => EmptyString
  | S k' => String "0" (zeros k')
  end.

(** [s.zfill(width)]: pad on the left with zeros up to [width]; a leading
    sign stays in front of the padding. *)
Definition zfill (s : string) (width : nat) : string :=
  if (width <=? String.length s)%nat then s
  else
    let fill := (width - String.length s)%nat in
    match s with
    | String c rest =>
        if (Ascii.eqb c "+" || Ascii.eqb c "-")%bool
        then String c (zeros fill +:+ rest)
        else zeros fill +:+ s
    | EmptyString => zeros fill
    end.

(** The f-string [f"{prefix}_{str(num).zfill(3)}"]. *)
Definition fake_name (prefix : string) (num : Z) : string :=
  prefix +:+ "_" +:+ zfill (str num) 3.

(** Following the spec's words: the integer zero-padded to at least 3
    digits, at its natural width from 3 digits on. *)
Definition zero_padded3 (n : Z) : string :=
  if n <? 10 then "00" +:+ str n
  else if n <? 100 then "0" +:+ str n
  else str n.

(** Reading a padded number back. *)
Definition int_of_padded (s : string) : option Z :=
  Z.of_uint <$> NilEmpty.uint_of_string s.

(** ** Tables *)

(** A cell of a data frame: missing ([None] or [NaN]), a string or an
    integer. *)
Inductive cell : Type :=
| PyNone
| NaN
| Text (s : string)
| Number (n : Z).

(** [pd.isna(value)] on a scalar. *)
Definition isna (value : cell) : bool :=
  match value with
  | PyNone | NaN => true
  | Text _ | Number _ => false
  end.

(** [str(value)]. *)
Definition str_cell (value : cell) : string :=
  match value with
  | PyNone => "None"
  | NaN => "nan"
  | Text s => s
  | Number n => str n
  end.

(** A data frame: its named columns in order, each with its cells in row
    order. *)
Definition DataFrame : Type := list (string * list cell).

(** [df[col]]: [None] stands for the [KeyError] of an absent column. *)
Fixpoint df_getitem (df : DataFrame) (col : string) : option (list cell) :=
  match df with
  | [] => None
  | (name, series) :: rest =>
      if String.eqb name col then Some series else df_getitem rest col
  end.

(** [df[col] = series]: the column keeps its place; a new name is added
    last. *)
Fixpoint df_setitem (df : DataFrame) (col : string) (series : list cell) : DataFrame :=
  match df with
  | [] => [(col, series)]
  | (name, old) :: rest =>
      if String.eqb name col then (name, series) :: rest
      else (name, old) :: df_setitem rest col series
  end.

(** A series without its missing cells, and the frame of such series. *)
Definition dropna (series : list cell) : list cell :=
  filter (λ value, isna value = false) series.

Definition df_dropna (df : DataFrame) : DataFrame :=
  map (λ column, (column.1, dropna column.2)) df.

(** ** The session mapper *)

(** [self._mappings] is [{prefix: {real_value: fake_value}}] and
    [self._used_numbers] is [{prefix: set of int}]. *)
Record SessionMapper : Type := mkSessionMapper {
  _mappings : gmap string (gmap string string);
  _used_numbers : gmap string (gset Z)
}.

(** [SessionMapper.__init__]. *)
Definition init : SessionMapper :=
  {| _mappings := ∅; _used_numbers := ∅ |}.

(** The numbers issued from the primary range for a prefix, and the table
    of a prefix; an absent prefix has none. *)
Definition used_of (m : SessionMapper) (prefix : string) : gset Z :=
  default ∅ (_used_numbers m !! prefix).

Definition mapping_of (m : SessionMapper) (prefix : string) : gmap string string :=
  default ∅ (_mappings m !! prefix).

(** What holds of a mapper throughout a session: the used numbers are in
    the primary range; every stored name is the format of a used number or
    of the fallback number of a full range; and a name other than the
    fallback's is stored for one value only. *)
Definition session_inv (m : SessionMapper) : Prop :=
  ∀ prefix,
    (∀ n, n ∈ used_of m prefix → 1 ≤ n ≤ 999)
    ∧ (∀ v f, mapping_of m prefix !! v = Some f →
         ∃ n, f = fake_name prefix n
              ∧ (n ∈ used_of m prefix
                 ∨ (n = 1999 ∧ size (used_of m prefix) = 999%nat)))
    ∧ (∀ v1 v2 f, mapping_of m prefix !! v1 = Some f →
         mapping_of m prefix !! v2 = Some f →
         f ≠ fake_name prefix 1999 → v1 = v2).

(** How a cell of a column replaced under [prefix] relates to the cell it
    comes from, for a mapper [m]: a missing cell is itself, any other cell is
    the name the mapper holds for its text. *)
Definition replaced (prefix : string) (m : SessionMapper) (value value' : cell) : Prop :=
  if isna value then value' = value
  else ∃ fake, value' = Text fake
               ∧ mapping_of m prefix !! str_cell value = Some fake.

Section Session.

(** The module-level generator of [random]. [random.choice(seq)] is
    [seq[_randbelow(len(seq))]]; the generator is a parameter, a state [G]
    with its [_randbelow]. The index is reduced modulo the length, which
    changes nothing for a generator that answers below its argument. *)
Context {G : Type} (randbelow : G → N → N * G).

(** What a method call can read and write: the mapper object and the
    generator. *)
Record World : Type := mkWorld {
  self : SessionMapper;
  random : G
}.

(** State that survives an exception, as a Python object does. *)
Definition Py (A : Type) : Type := World → outcome A * World.

Definition ret {A} (a : A) : Py A := λ w, (Return a, w).

Definition raise {A} (e : exn) : Py A := λ w, (Raise e, w).

Definition bind {A B} (c : Py A) (k : A → Py B) : Py B :=
  λ w, match c w with
       | (Return a, w') => k a w'
       | (Raise e, w') => (Raise e, w')
       end.

Notation "x ←- c ;;; k" := (bind c (λ x, k))
  (at level 100, c at next level, right associativity).
Notation "c ;;; k" := (bind c (λ _, k))
  (at level 100, right associativity).

Definition get_mappings : Py (gmap string (gmap string string)) :=
  λ w, (Return (_mappings (self w)), w).

Definition get_used_numbers : Py (gmap string (gset Z)) :=
  λ w, (Return (_used_numbers (self w)), w).

Definition set_mappings (m : gmap string (gmap string string)) : Py unit :=
  λ w, (Return tt,
        {| self := {| _mappings := m; _used_numbers := _used_numbers (self w) |};
           random := random w |}).

Definition set_used_numbers (u : gmap string (gset Z)) : Py unit :=
  λ w, (Return tt,
        {| self := {| _mappings := _mappings (self w); _used_numbers := u |};
           random := random w |}).

(** [d[key]] of a dict. *)
Definition getitem {V} (d : gmap string V) (key : string) : Py V :=
  match d !! key with
  | Some v => ret v
  | None => raise (KeyError key)
  end.

(** [random.choice(seq)]. *)
Definition choice (seq : list Z) : Py Z :=
  λ w, match seq with
       | [] => (Raise IndexError, w)
       | x :: _ =>
           let '(i, g) := randbelow (random w) (N.of_nat (length seq)) in
           (Return (nth (N.to_nat (i mod N.of_nat (length seq))) seq x),
            {| self := self w; random := g |})
       end.

(** [[n for n in range(1, 1000) if n not in used]]. *)
Definition available_numbers (used : gset Z) : list Z :=
  filter (λ n, n ∉ used) (seqZ 1 999).

(** [SessionMapper._get_random_number]. *)
Definition _get_random_number (prefix : string) : Py Z :=
  un ←- get_used_numbers ;;;
  (if bool_decide (un !! prefix = None)
   then set_used_numbers (<[prefix := ∅]> un)
   else ret tt) ;;;
  un ←- get_used_numbers ;;;
  used ←- getitem un prefix ;;;
  let available := available_numbers used in
  match available with
  | [] => ret (Z.of_nat (size used) + 1000)
  | _ =>
      chosen ←- choice available ;;;
      (* used.add(chosen): the set is the one the dict holds *)
      un ←- get_used_numbers ;;;
      set_used_numbers (<[prefix := {[chosen]} ∪ used]> un) ;;;
      ret chosen
  end.

(** [SessionMapper.get_fake_value]. *)
Definition get_fake_value (prefix real_value : string) : Py string :=
  ms ←- get_mappings ;;;
  (if bool_decide (ms !! prefix = None)
   then set_mappings (<[prefix := ∅]> ms)
   else ret tt) ;;;
  ms ←- get_mappings ;;;
  m ←- getitem ms prefix ;;;
  (if bool_decide (m !! real_value = None)
   then
     num ←- _get_random_number prefix ;;;
     let fake := fake_name prefix num in
     ms ←- get_mappings ;;;
     m ←- getitem ms prefix ;;;
     set_mappings (<[prefix := <[real_value := fake]> m]> ms)
   else ret tt) ;;;
  ms ←- get_mappings ;;;
  m ←- getitem ms prefix ;;;
  getitem m real_value.

(** [SessionMapper.get_summary]. *)
Definition get_summary : Py (gmap string nat) :=
  ms ←- get_mappings ;;;
  ret (size <$> ms).

(** ** Sessions: successive calls on one mapper *)

(** A call a client of the mapper can make. *)
Inductive call : Type :=
| Allocate (prefix : string)
| MapValue (prefix real_value : string).

Definition perform (c : call) : Py unit :=
  match c with
  | Allocate prefix => _get_random_number prefix ;;; ret tt
  | MapValue prefix real_value => get_fake_value prefix real_value ;;; ret tt
  end.

(** The world after a sequence of calls, whatever they return. *)
Fixpoint run (cs : list call) (w : World) : World :=
  match cs with
  | [] => w
  | c :: cs' => run cs' (snd (perform c w))
  end.

(** The results of [k] successive calls of [_get_random_number(prefix)]. *)
Fixpoint allocations (k : nat) (prefix : string) (w : World) : list (outcome Z) :=
  match k with
  | O => []
  | S k' =>
      let '(r, w') := _get_random_number prefix w in
      r :: allocations k' prefix w'
  end.

(** The calls of the mapper that replacing a column makes: one for each
    cell that is not missing, in row order. *)
Definition series_calls (prefix : string) (series : list cell) : list call :=
  map (λ value, MapValue prefix (str_cell value)) (dropna series).

(** A world is reachable when a session that starts from a new mapper gets
    to it. *)
Definition reachable (w : World) : Prop :=
  ∃ g cs, w = run cs {| self := init; random := g |}.

(** ** The table and the replacement loop *)

(** [replace_value], the closure that step 6 of [interactive_pseudonymize]
    applies to every cell of a selected column. *)
Definition replace_value (prefix : string) (value : cell) : Py cell :=
  if isna value then ret value
  else
    fake ←- get_fake_value prefix (str_cell value) ;;;
    ret (Text fake).

(** [series.apply(func)]: the cells in order, each result kept in place. *)
Fixpoint series_apply (func : cell → Py cell) (series : list cell) : Py (list cell) :=
  match series with
  | [] => ret []
  | value :: rest =>
      value' ←- func value ;;;
      rest' ←- series_apply func rest ;;;
      ret (value' :: rest')
  end.

(** The loop of step 6 over [column_prefixes.items()], in insertion order.
    The frame is mutated in place, so the frame an exception leaves behind
    is part of the result. *)
Fixpoint replace_columns (column_prefixes : list (string * string))
    (df : DataFrame) (w : World) : outcome unit * DataFrame * World :=
  match column_prefixes with
  | [] => (Return tt, df, w)
  | (col, prefix) :: rest =>
      (* unique_before = df[col].nunique() *)
      match df_getitem df col with
      | None => (Raise (KeyError col), df, w)
      | Some series =>
          (* df[col] = df[col].apply(replace_value) *)
          match series_apply (replace_value prefix) series w with
          | (Return series', w') =>
              replace_columns rest (df_setitem df col series') w'
          | (Raise e, w') => (Raise e, df, w')
          end
      end
  end.

(** Step 6 with its [mapper = SessionMapper()]. *)
Definition interactive_pseudonymize (column_prefixes : list (string * string))
    (df : DataFrame) (g : G) : outcome unit * DataFrame * World :=
  replace_columns column_prefixes df {| self := init; random := g |}.

End Session.

(** A linear congruential generator, to run the model. *)
Definition lcg (g : N) (n : N) : N * N :=
  let g' := ((g * 1103515245 + 12345) mod 2147483648)%N in
  ((g' / 65536) mod n, g')%N.

Definition fresh (seed : N) : @World N := {| self := init; random := seed |}.

(** A small report and a choice of columns, to run step 6. *)
Definition demo_frame : DataFrame :=
  [("Vendor", [Text "Acme"; NaN; Text "Boeing"; Text "Acme"]);
   ("Amount", [Number 100; Number 250; PyNone; Number 75])].

Definition demo_columns : list (string * string) := [("Vendor", "Vendor")].

(** A report with two columns that share a prefix. *)
Definition demo_shared_frame : DataFrame :=
  [("Vendor", [Text "Acme"; Number 7; NaN]);
   ("Subcontractor", [Text "7"; Text "Boeing"; Text "Acme"])].

Definition demo_shared_columns : list (string * string) :=
  [("Vendor", "Org"); ("Subcontractor", "Org")].

(** The calls of the mapper that step 6 makes on a frame, column by column,
    and the texts of the cells that are not missing in the columns given a
    prefix. *)
Definition table_calls (column_prefixes : list (string * string))
    (df : DataFrame) : list call :=
  flat_map (λ cp, series_calls cp.2 (default [] (df_getitem df cp.1)))
    column_prefixes.

Definition texts_under (prefix : string)
    (column_prefixes : list (string * string)) (df : DataFrame) : list string :=
  flat_map (λ cp, if decide (cp.2 = prefix)
                  then str_cell <$> dropna (default [] (df_getitem df cp.1))
                  else [])
    column_prefixes.

(** The sample value that step 2 shows for a column:
    [sample_str[:27] + "..."] when [len(sample_str) > 30]. *)
Definition truncate_sample (sample_str : string) : string :=
  if (30 <? String.length sample_str)%nat
  then substring 0 27 sample_str +:+ "..."
  else sample_str.

(** ** Text typed at the console *)

(** The text is taken to be ASCII; on it the functions below are Python's
    [str.isspace], [str.strip], [str.lower], [str.replace] for one
    character, [str.title] and [str.split] with a one-character
    separator. *)
Definition is_space (c : ascii) : bool :=
  let n := N_of_ascii c in
  ((9 <=? n) && (n <=? 13) || (28 <=? n) && (n <=? 32))%N.

Definition is_upper (c : ascii) : bool :=
  let n := N_of_ascii c in ((65 <=? n) && (n <=? 90))%N.

Definition is_lower (c : ascii) : bool :=
  let n := N_of_ascii c in ((97 <=? n) && (n <=? 122))%N.

Definition lower_char (c : ascii) : ascii :=
  if is_upper c then ascii_of_N (N_of_ascii c + 32) else c.

Definition upper_char (c : ascii) : ascii :=
  if is_lower c then ascii_of_N (N_of_ascii c - 32) else c.

Fixpoint lstrip (s : string) : string :=
  match s with
  | EmptyString => EmptyString
  | String c rest => if is_space c then lstrip rest else s
  end.

Fixpoint rstrip (s : string) : string :=
  match s with
  | EmptyString => EmptyString
  | String c rest =>
      match rstrip rest with
      | EmptyString => if is_space c then EmptyString else String c EmptyString
      | rest' => String c rest'
      end
  end.

Definition strip (s : string) : string := lstrip (rstrip s).

Fixpoint lower (s : string) : string :=
  match s with
  | EmptyString => EmptyString
  | String c rest => String (lower_char c) (lower rest)
  end.

Fixpoint replace_char (old new : ascii) (s : string) : string :=
  match s with
  | EmptyString => EmptyString
  | String c rest =>
      String (if Ascii.eqb c old then new else c) (replace_char old new rest)
  end.

(** [str.title]: a letter is put in upper case after a character that is
    not a letter, in lower case after a letter. *)
Fixpoint title_from (previous_is_cased : bool) (s : string) : string :=
  match s with
  | EmptyString => EmptyString
  | String c rest =>
      String (if previous_is_cased then lower_char c else upper_char c)
        (title_from (is_upper c || is_lower c) rest)
  end.

Definition title (s : string) : string := title_from false s.

Fixpoint split (sep : ascii) (s : string) : list string :=
  match s with
  | EmptyString => [EmptyString]
  | String c rest =>
      if Ascii.eqb c sep then EmptyString :: split sep rest
      else match split sep rest with
           | first :: others => String c first :: others
           | [] => [String c EmptyString]
           end
  end.

(** [c in s] for a character. *)
Fixpoint contains (c : ascii) (s : string) : bool :=
  match s with
  | EmptyString => false
  | String c' rest => Ascii.eqb c' c || contains c rest
  end.

(** [l[i]] of a Python list: a negative index counts from the end; [None]
    stands for the [IndexError]. *)
Definition py_index {A} (l : list A) (i : Z) : option A :=
  if i <? 0 then
    if - i <=? Z.of_nat (length l) then l !! Z.to_nat (Z.of_nat (length l) + i)
    else None
  else l !! Z.to_nat i.

(** [d[key] = value] of a Python dict: a key that is there keeps its place,
    a new key comes last. *)
Fixpoint dict_setitem {V} (d : list (string * V)) (key : string) (value : V)
    : list (string * V) :=
  match d with
  | [] => [(key, value)]
  | (k, old) :: rest =>
      if String.eqb k key then (k, value) :: rest
      else (k, old) :: dict_setitem rest key value
  end.

(** ** The dialogue of [interactive_pseudonymize] *)

(** What is printed is not modelled; what is typed is: the console is the
    list of the lines still to be read, and [input()] takes the first one,
    or raises [EOFError] when there is none. *)
Inductive console_exn : Type :=
| EOFError
| ListIndexError.

Inductive reply (A : Type) : Type :=
| Reply (a : A)
| Failure (e : console_exn).
Arguments Reply {A} a.
Arguments Failure {A} e.

(** [get_yes_no]. *)
Fixpoint get_yes_no (stdin : list string) : reply bool * list string :=
  match stdin with
  | [] => (Failure EOFError, [])
  | line :: rest =>
      let response := lower (strip line) in
      if bool_decide (response ∈ ["y"; "yes"]) then (Reply true, rest)
      else if bool_decide (response ∈ ["n"; "no"]) then (Reply false, rest)
      else get_yes_no rest
  end.

(** The [for num in numbers] loop of step 3: the columns picked so far, and
    whether every number was a column number. *)
Fixpoint pick_columns (columns_list : list string) (numbers : list Z)
    (selected_columns : list string) : reply (list string * bool) :=
  match numbers with
  | [] => Reply (selected_columns, true)
  | num :: rest =>
      if (1 <=? num) && (num <=? Z.of_nat (length columns_list)) then
        match py_index columns_list (num - 1) with
        | Some col => pick_columns columns_list rest (selected_columns ++ [col])
        | None => Failure ListIndexError
        end
      else Reply (selected_columns, false)
  end.

(** The prefix as step 4 stores it: [prefix.replace(" ", "_").title()]. *)
Definition clean_prefix (prefix : string) : string :=
  title (replace_char " " "_" prefix).

(** The inner loop of step 4, for one column. *)
Fixpoint ask_prefix (stdin : list string) : reply string * list string :=
  match stdin with
  | [] => (Failure EOFError, [])
  | line :: rest =>
      let prefix := strip line in
      if String.eqb prefix "" then ask_prefix rest
      else (Reply (clean_prefix prefix), rest)
  end.

(** The [for col in selected_columns] loop of step 4, which fills
    [column_prefixes]. *)
Fixpoint collect_prefixes (selected_columns : list string)
    (column_prefixes : list (string * string)) (stdin : list string)
    : reply (list (string * string)) * list string :=
  match selected_columns with
  | [] => (Reply column_prefixes, stdin)
  | col :: rest =>
      match ask_prefix stdin with
      | (Reply prefix, stdin') =>
          collect_prefixes rest (dict_setitem column_prefixes col prefix) stdin'
      | (Failure e, stdin') => (Failure e, stdin')
      end
  end.

Section Dialogue.

(** The built-in [int] on a string is a parameter: [None] stands for its
    [ValueError]. *)
Context (py_int : string → option Z).

(** [[int(x.strip()) for x in response.split(',')]]. *)
Definition parse_numbers (response : string) : option (list Z) :=
  mapM (λ x, py_int (strip x)) (split "," response).

(** The [while True] loop of step 3. [selected_columns] is the variable of
    that name, which the loop sets again only once an answer has parsed. *)
Fixpoint select_columns (columns_list selected_columns stdin : list string)
    : reply (list string) * list string :=
  match stdin with
  | [] => (Failure EOFError, [])
  | line :: rest =>
      let response := strip line in
      if String.eqb (lower response) "none" then (Reply selected_columns, rest)
      else
        match parse_numbers response with
        | None => select_columns columns_list selected_columns rest
        | Some numbers =>
            match pick_columns columns_list numbers [] with
            | Reply (selected, true) => (Reply selected, rest)
            | Reply (selected, false) =>
                select_columns columns_list selected rest
            | Failure e => (Failure e, rest)
            end
        end
  end.

Context {G : Type} (randbelow : G → N → N * G).

(** How the dialogue ends. *)
Inductive ending : Type :=
| ConsoleFailure (e : console_exn)
| NoColumnsSelected
| Cancelled
| Replaced (r : outcome unit) (w : @World G).

(** Steps 3 to 6 of [interactive_pseudonymize] on the frame that step 1 has
    loaded: the selection, the prefixes, the confirmation, the replacement.
    With the ending come the frame and the lines left to read. *)
Definition interactive_steps (df : DataFrame) (stdin : list string) (g : G)
    : ending * DataFrame * list string :=
  let columns_list := df.*1 in
  match select_columns columns_list [] stdin with
  | (Failure e, stdin1) => (ConsoleFailure e, df, stdin1)
  | (Reply [], stdin1) => (NoColumnsSelected, df, stdin1)
  | (Reply selected_columns, stdin1) =>
      match collect_prefixes selected_columns [] stdin1 with
      | (Failure e, stdin2) => (ConsoleFailure e, df, stdin2)
      | (Reply column_prefixes, stdin2) =>
          match get_yes_no stdin2 with
          | (Failure e, stdin3) => (ConsoleFailure e, df, stdin3)
          | (Reply false, stdin3) => (Cancelled, df, stdin3)
          | (Reply true, stdin3) =>
              let '(r, df', w) :=
                interactive_pseudonymize randbelow column_prefixes df g in
              (Replaced r w, df', stdin3)
          end
      end
  end.

End Dialogue.

(** [int] on the plain decimal numerals, with a sign or not and blanks
    around or not, to run the dialogue. *)
Definition decimal_int (s : string) : option Z :=
  match strip s with
  | EmptyString => None
  | String "-" digits =>
      if String.eqb digits "" then None
      else Z.opp <$> int_of_padded digits
  | String "+" digits =>
      if String.eqb digits "" then None else int_of_padded digits
  | digits => int_of_padded digits
  end.

(** The values that a sequence of calls maps under a prefix, in call
    order. *)
Fixpoint values_of (prefix : string) (cs : list call) : list string :=
  match cs with
  | [] => []
  | Allocate _ :: cs' => values_of prefix cs'
  | MapValue p real_value :: cs' =>
      if decide (p = prefix) then real_value :: values_of prefix cs'
      else values_of prefix cs'
  end.

(** * Properties *)

(** ** Decimal strings *)

Lemma append_nil (s : string) : "" +:+ s = s.
Proof. reflexivity. Qed.

Lemma append_cons (c : ascii) (a b : string) :
  String c a +:+ b = String c (a +:+ b).
Proof. reflexivity. Qed.

Lemma append_inj_l (p a b : string) : p +:+ a = p +:+ b → a = b.
Proof.
  induction p as [|c p IH]; rewrite ?append_nil, ?append_cons; [done|].
  intros [= H]. by apply IH.
Qed.

Lemma string_of_uint_length (d : Decimal.uint) :
  String.length (NilEmpty.string_of_uint d) = Decimal.nb_digits d.
Proof. induction d; simpl; f_equal; auto. Qed.

Lemma zeros_length (k : nat) : String.length (zeros k) = k.
Proof. induction k; simpl; f_equal; auto. Qed.

Lemma append_length (a b : string) :
  String.length (a +:+ b) = (String.length a + String.length b)%nat.
Proof.
  induction a; rewrite ?append_nil, ?append_cons; simpl; f_equal; auto.
Qed.

Lemma uint_of_string_zeros (k : nat) (s : string) :
  NilEmpty.uint_of_string (zeros k +:+ s)
  = Nat.iter k Decimal.D0 <$> NilEmpty.uint_of_string s.
Proof.
  induction k as [|k IH]; simpl; rewrite ?append_nil, ?append_cons; simpl.
  - by destruct (NilEmpty.uint_of_string s).
  - rewrite IH. by destruct (NilEmpty.uint_of_string s).
Qed.

Lemma of_uint_iter_zero (k : nat) (d : Decimal.uint) :
  Z.of_uint (Nat.iter k Decimal.D0 d) = Z.of_uint d.
Proof. induction k as [|k IH]; simpl; [done|]. exact IH. Qed.

(** [str] of a natural number is its digits: no sign, at least one digit. *)
Lemma str_nonneg (n : Z) :
  0 ≤ n →
  ∃ d, d ≠ Decimal.Nil ∧ Z.of_uint d = n ∧ str n = NilEmpty.string_of_uint d.
Proof.
  intros Hn. destruct n as [|p|p]; [| |lia].
  - exists (Decimal.D0 Decimal.Nil). by repeat split.
  - exists (Pos.to_uint p). split; [apply Unsigned.to_uint_nonnil|].
    split.
    + pose proof (DecimalZ.of_to (Z.pos p)) as H. exact H.
    + unfold str. simpl.
      pose proof (Unsigned.to_uint_nonnil p) as Hnil.
      by destruct (Pos.to_uint p).
Qed.

Lemma zfill_digits (d : Decimal.uint) (width : nat) :
  d ≠ Decimal.Nil →
  zfill (NilEmpty.string_of_uint d) width
  = zeros (width - String.length (NilEmpty.string_of_uint d))
    +:+ NilEmpty.string_of_uint d.
Proof.
  intros Hd. unfold zfill.
  destruct (Nat.leb_spec width (String.length (NilEmpty.string_of_uint d)))
    as [Hle|Hlt].
  - replace (width - _)%nat with 0%nat by lia. done.
  - destruct d; try done; simpl; done.
Qed.

(** [zfill] on the digits of a natural number only adds zeros in front. *)
Lemma zfill_str (n : Z) (width : nat) :
  0 ≤ n → zfill (str n) width = zeros (width - String.length (str n)) +:+ str n.
Proof.
  intros Hn. destruct (str_nonneg n Hn) as (d & Hd & _ & ->).
  by apply zfill_digits.
Qed.

Lemma zfill_length (n : Z) (width : nat) :
  0 ≤ n → (width ≤ String.length (zfill (str n) width))%nat.
Proof.
  intros Hn. rewrite zfill_str by done.
  rewrite append_length, zeros_length. lia.
Qed.

Lemma int_of_padded_zfill (n : Z) (width : nat) :
  0 ≤ n → int_of_padded (zfill (str n) width) = Some n.
Proof.
  intros Hn. destruct (str_nonneg n Hn) as (d & Hd & Hof & Hs).
  rewrite Hs, zfill_digits by done.
  unfold int_of_padded. rewrite uint_of_string_zeros, NilEmpty.usu. simpl.
  by rewrite of_uint_iter_zero, Hof.
Qed.

(** Distinct numbers give distinct fake names under one prefix. *)
Lemma fake_name_inj (prefix : string) (n n' : Z) :
  0 ≤ n → 0 ≤ n' → fake_name prefix n = fake_name prefix n' → n = n'.
Proof.
  intros Hn Hn' H. unfold fake_name in H.
  apply append_inj_l in H. rewrite !append_cons, !append_nil in H.
  injection H as H.
  pose proof (int_of_padded_zfill n 3 Hn) as H1.
  pose proof (int_of_padded_zfill n' 3 Hn') as H2.
  congruence.
Qed.

(** A number with [k] digits is below [10 ^ k]. *)
Lemma of_lu_bound (d : Decimal.uint) :
  (Unsigned.of_lu d < 10 ^ Unsigned.usize d)%N.
Proof.
  induction d; simpl Unsigned.usize; rewrite ?N.pow_succ_r';
    simpl Unsigned.of_lu; [simpl|..]; lia.
Qed.

Lemma usize_nb_digits (d : Decimal.uint) :
  Unsigned.usize d = N.of_nat (Decimal.nb_digits d).
Proof.
  induction d; simpl Unsigned.usize; simpl Decimal.nb_digits;
    rewrite ?Nat2N.inj_succ; f_equal; auto.
Qed.

Lemma str_length_ge3 (n : Z) : 100 ≤ n → (3 ≤ String.length (str n))%nat.
Proof.
  intros Hn. destruct n as [|p|p]; [lia| |lia].
  unfold str. simpl.
  pose proof (Unsigned.to_uint_nonnil p) as Hnil.
  replace (NilZero.string_of_uint (Pos.to_uint p))
    with (NilEmpty.string_of_uint (Pos.to_uint p))
    by (by destruct (Pos.to_uint p)).
  rewrite string_of_uint_length.
  pose proof (Unsigned.of_to p) as Hof.
  rewrite Unsigned.of_uint_alt in Hof.
  pose proof (of_lu_bound (Decimal.rev (Pos.to_uint p))) as Hb.
  rewrite Hof, usize_nb_digits, nb_digits_rev in Hb.
  destruct (Decimal.nb_digits (Pos.to_uint p)) as [|[|[|k]]]; [| | |lia].
  - simpl in Hb. lia.
  - simpl in Hb. lia.
  - simpl in Hb. lia.
Qed.

Lemma zfill_below_100 (n : Z) :
  0 ≤ n < 100 → zfill (str n) 3 = zero_padded3 n.
Proof.
  intros Hn.
  assert (forallb (λ k, String.eqb (zfill (str k) 3) (zero_padded3 k))
            (seqZ 0 100) = true) as Hall by (vm_compute; reflexivity).
  rewrite forallb_forall in Hall.
  apply String.eqb_eq, Hall, list_elem_of_In, elem_of_seqZ. lia.
Qed.

(** The padding of the source is the padding the spec describes. *)
Lemma zfill_zero_padded3 (n : Z) : 0 ≤ n → zfill (str n) 3 = zero_padded3 n.
Proof.
  intros Hn. destruct (decide (n < 100)) as [Hlt|Hge].
  - apply zfill_below_100. lia.
  - unfold zero_padded3.
    destruct (Z.ltb_spec n 10); [lia|]. destruct (Z.ltb_spec n 100); [lia|].
    unfold zfill.
    destruct (Nat.leb_spec 3 (String.length (str n))) as [|Hlen]; [done|].
    pose proof (str_length_ge3 n). lia.
Qed.

(** ** The allocator *)

Lemma elem_of_available (n : Z) (used : gset Z) :
  n ∈ available_numbers used ↔ 1 ≤ n ≤ 999 ∧ n ∉ used.
Proof.
  unfold available_numbers. rewrite list_elem_of_filter, elem_of_seqZ.
  intuition lia.
Qed.

Lemma available_nil (used : gset Z) :
  available_numbers used = [] ↔ ∀ n, 1 ≤ n ≤ 999 → n ∈ used.
Proof.
  split.
  - intros Hnil n Hn. destruct (decide (n ∈ used)) as [|Hout]; [done|].
    assert (n ∈ available_numbers used) as Hin by by apply elem_of_available.
    rewrite Hnil in Hin. by apply not_elem_of_nil in Hin.
  - intros Hall. destruct (available_numbers used) as [|x l] eqn:E; [done|].
    assert (x ∈ available_numbers used) as Hin by (rewrite E; left).
    apply elem_of_available in Hin as [Hx Hout]. destruct Hout. by apply Hall.
Qed.

Lemma available_of_empty : available_numbers ∅ ≠ [].
Proof.
  intros H. pose proof (proj1 (available_nil ∅) H 1) as H1.
  assert (1 ≤ 1 ≤ 999) as Hr by lia. specialize (H1 Hr). set_solver.
Qed.

(** The primary range as a set, and what fits in it. *)
Lemma primary_size : size (list_to_set (seqZ 1 999) : gset Z) = 999%nat.
Proof.
  rewrite size_list_to_set by apply NoDup_seqZ. by rewrite length_seqZ.
Qed.

Lemma used_size_le (used : gset Z) :
  (∀ n, n ∈ used → 1 ≤ n ≤ 999) → (size used ≤ 999)%nat.
Proof.
  intros H. rewrite <- primary_size. apply subseteq_size.
  intros n Hn. apply elem_of_list_to_set, elem_of_seqZ. specialize (H n Hn). lia.
Qed.

(** With fewer than 999 numbers used, one of the primary range is left. *)
Lemma available_of_small (used : gset Z) :
  (size used < 999)%nat → available_numbers used ≠ [].
Proof.
  intros Hlt Hnil. pose proof (proj1 (available_nil used) Hnil) as Hall.
  assert (list_to_set (seqZ 1 999) ⊆ used) as Hsub.
  { intros n Hn. apply elem_of_list_to_set, elem_of_seqZ in Hn.
    apply Hall. lia. }
  apply subseteq_size in Hsub. rewrite primary_size in Hsub. lia.
Qed.

(** With no number left, the used set is the whole primary range. *)
Lemma available_nil_size (used : gset Z) :
  (∀ n, n ∈ used → 1 ≤ n ≤ 999) → available_numbers used = [] →
  size used = 999%nat.
Proof.
  intros Hin Hnil. pose proof (used_size_le used Hin).
  destruct (decide (size used < 999)%nat) as [Hlt|]; [|lia].
  by destruct (available_of_small used Hlt).
Qed.

Section SessionFacts.

Context {G : Type} (randbelow : G → N → N * G).

Local Abbreviation World := (@World G).
Implicit Types (w : World) (m : SessionMapper) (g : G).
Implicit Types (prefix real_value fake : string).

Lemma choice_spec (seq : list Z) w :
  seq ≠ [] →
  ∃ x g', x ∈ seq ∧
    choice randbelow seq w = (Return x, {| self := self w; random := g' |}).
Proof.
  intros Hne. unfold choice. destruct seq as [|x0 rest]; [done|].
  destruct (randbelow _ _) as [i g'].
  eexists _, g'. split; [|reflexivity].
  apply list_elem_of_In, nth_In.
  assert (0 < N.of_nat (length (x0 :: rest)))%N as Hpos by (simpl; lia).
  pose proof (N.mod_lt i (N.of_nat (length (x0 :: rest)))). lia.
Qed.

(** [_get_random_number] while the primary range has a number left: the
    result is one of the numbers left, and it is recorded as used. *)
Lemma alloc_primary prefix ms un g :
  available_numbers (default ∅ (un !! prefix)) ≠ [] →
  ∃ n g', n ∈ available_numbers (default ∅ (un !! prefix)) ∧
    _get_random_number randbelow prefix
      {| self := {| _mappings := ms; _used_numbers := un |}; random := g |}
    = (Return n,
       {| self := {| _mappings := ms;
                     _used_numbers :=
                       <[prefix := {[n]} ∪ default ∅ (un !! prefix)]> un |};
          random := g' |}).
Proof.
  intros Hav. unfold _get_random_number, bind, get_used_numbers. simpl.
  destruct (un !! prefix) as [used|] eqn:Eu; simpl in *.
  - unfold getitem. rewrite Eu. unfold ret at 1.
    destruct (available_numbers used) as [|x0 rest] eqn:Ea; [done|].
    rewrite <- Ea.
    destruct (choice_spec (available_numbers used)
                {| self := {| _mappings := ms; _used_numbers := un |};
                   random := g |}) as (n & g' & Hn & ->); [by rewrite Ea|].
    simpl. exists n, g'. by split.
  - unfold getitem. rewrite lookup_insert_eq. unfold ret at 1.
    destruct (available_numbers ∅) as [|x0 rest] eqn:Ea; [done|].
    rewrite <- Ea.
    destruct (choice_spec (available_numbers ∅)
                {| self := {| _mappings := ms;
                              _used_numbers := <[prefix := ∅]> un |};
                   random := g |}) as (n & g' & Hn & ->); [by rewrite Ea|].
    simpl. exists n, g'. split; [done|].
    unfold ret. by rewrite insert_insert_eq.
Qed.

(** [_get_random_number] once the primary range is used up: the result is
    [len(used) + 1000], and nothing is recorded. *)
Lemma alloc_fallback prefix w :
  available_numbers (used_of (self w) prefix) = [] →
  _get_random_number randbelow prefix w
  = (Return (Z.of_nat (size (used_of (self w) prefix)) + 1000), w).
Proof.
  intros Hav. unfold used_of in *.
  unfold _get_random_number, bind, get_used_numbers. simpl.
  destruct (_used_numbers (self w) !! prefix) as [used|] eqn:Eu; simpl in *.
  - unfold getitem. rewrite Eu. unfold ret at 1. by rewrite Hav.
  - by destruct available_of_empty.
Qed.

(** The allocator never raises and never touches the tables. *)
Lemma alloc_cases prefix ms un g :
  let used := default ∅ (un !! prefix) in
  let w := {| self := {| _mappings := ms; _used_numbers := un |};
              random := g |} in
  (available_numbers used = [] ∧
   _get_random_number randbelow prefix w
   = (Return (Z.of_nat (size used) + 1000), w))
  ∨ (∃ n g', n ∈ available_numbers used ∧
       _get_random_number randbelow prefix w
       = (Return n,
          {| self := {| _mappings := ms;
                        _used_numbers := <[prefix := {[n]} ∪ used]> un |};
             random := g' |})).
Proof.
  intros used w.
  destruct (decide (available_numbers used = [])) as [Ea|Ea].
  - left. split; [done|]. by apply (alloc_fallback prefix w).
  - right. by apply alloc_primary.
Qed.

(** What the allocator does is the same under any tables. *)
Lemma alloc_frame prefix ms ms' un g :
  _get_random_number randbelow prefix
    {| self := {| _mappings := ms'; _used_numbers := un |}; random := g |}
  = let r := _get_random_number randbelow prefix
               {| self := {| _mappings := ms; _used_numbers := un |};
                  random := g |} in
    (r.1, {| self := {| _mappings := ms';
                        _used_numbers := _used_numbers (self r.2) |};
             random := random r.2 |}).
Proof.
  unfold _get_random_number, bind, get_used_numbers, getitem, ret,
    set_used_numbers. simpl.
  destruct (un !! prefix) as [used|] eqn:Eu; simpl;
    rewrite ?Eu, ?lookup_insert_eq; simpl.
  - destruct (available_numbers used) as [|x0 rest]; [done|].
    unfold choice. simpl. by destruct (randbelow _ _).
  - destruct (available_numbers ∅) as [|x0 rest]; [done|].
    unfold choice. simpl. by destruct (randbelow _ _).
Qed.

(** ** The mapper *)

(** A cache hit: the stored name comes back and nothing changes. *)
Lemma get_fake_value_hit prefix real_value fake w :
  mapping_of (self w) prefix !! real_value = Some fake →
  get_fake_value randbelow prefix real_value w = (Return fake, w).
Proof.
  unfold mapping_of. intros Hm.
  destruct (_mappings (self w) !! prefix) as [m|] eqn:Em; simpl in Hm; [|done].
  unfold get_fake_value, bind, get_mappings. simpl.
  rewrite Em. simpl. unfold getitem. rewrite Em. unfold ret at 1.
  rewrite Hm. simpl. unfold ret at 1. rewrite Em. unfold ret at 1.
  by rewrite Hm.
Qed.

(** A miss: the number the allocator gives, in this very state, is
    formatted and stored under the value. *)
Lemma get_fake_value_miss prefix real_value ms un g :
  default ∅ (ms !! prefix) !! real_value = None →
  ∃ n un' g',
    _get_random_number randbelow prefix
      {| self := {| _mappings := ms; _used_numbers := un |}; random := g |}
    = (Return n,
       {| self := {| _mappings := ms; _used_numbers := un' |}; random := g' |})
    ∧ get_fake_value randbelow prefix real_value
        {| self := {| _mappings := ms; _used_numbers := un |}; random := g |}
      = (Return (fake_name prefix n),
         {| self :=
              {| _mappings :=
                   <[prefix := <[real_value := fake_name prefix n]>
                                 (default ∅ (ms !! prefix))]> ms;
                 _used_numbers := un' |};
            random := g' |}).
Proof.
  intros Hm.
  assert (∃ n un' g',
    _get_random_number randbelow prefix
      {| self := {| _mappings := ms; _used_numbers := un |}; random := g |}
    = (Return n,
       {| self := {| _mappings := ms; _used_numbers := un' |}; random := g' |}))
    as (n & un' & g' & Ha).
  { destruct (alloc_cases prefix ms un g) as [[_ ->]|(n & g' & _ & ->)]; eauto. }
  exists n, un', g'. split; [done|].
  unfold get_fake_value, bind, get_mappings. simpl.
  destruct (ms !! prefix) as [m|] eqn:Em; simpl in *.
  - unfold getitem at 1. rewrite Em. unfold ret at 1. rewrite Hm. simpl.
    rewrite Ha. simpl. unfold getitem at 1. rewrite Em. unfold ret at 1.
    simpl. unfold getitem. rewrite lookup_insert_eq. unfold ret at 1.
    by rewrite lookup_insert_eq.
  - unfold getitem at 1. rewrite lookup_insert_eq. unfold ret at 1.
    rewrite lookup_empty. simpl.
    rewrite (alloc_frame prefix ms), Ha. simpl.
    unfold getitem at 1. rewrite lookup_insert_eq. unfold ret at 1.
    simpl. unfold getitem. rewrite lookup_insert_eq. unfold ret at 1.
    rewrite lookup_insert_eq. by rewrite insert_insert_eq.
Qed.

(** ** Sessions *)

Lemma used_of_insert prefix q (used : gset Z) ms un :
  used_of {| _mappings := ms; _used_numbers := <[prefix := used]> un |} q
  = if decide (prefix = q) then used
    else used_of {| _mappings := ms; _used_numbers := un |} q.
Proof.
  unfold used_of. simpl. rewrite lookup_insert. by destruct (decide (prefix = q)).
Qed.

Lemma mapping_of_insert prefix q (t : gmap string string) ms un :
  mapping_of {| _mappings := <[prefix := t]> ms; _used_numbers := un |} q
  = if decide (prefix = q) then t
    else mapping_of {| _mappings := ms; _used_numbers := un |} q.
Proof.
  unfold mapping_of. simpl. rewrite lookup_insert.
  by destruct (decide (prefix = q)).
Qed.

Lemma used_of_init prefix : used_of init prefix = ∅.
Proof. unfold used_of, init. simpl. by rewrite lookup_empty. Qed.

Lemma session_inv_init : session_inv init.
Proof.
  intros prefix. unfold used_of, mapping_of, init. simpl.
  rewrite !lookup_empty. simpl. split; [set_solver|].
  split; intros *; by rewrite lookup_empty.
Qed.

(** What a call of the allocator gives in a state of a session: a number of
    the primary range that was not used and now is, or 1999 with the
    state as it was, the range being full. *)
Lemma alloc_result prefix ms un g n w' :
  session_inv {| _mappings := ms; _used_numbers := un |} →
  _get_random_number randbelow prefix
    {| self := {| _mappings := ms; _used_numbers := un |}; random := g |}
  = (Return n, w') →
  let used := default ∅ (un !! prefix) in
  (1 ≤ n ≤ 999 ∧ (n ∉ used) ∧ (size used < 999)%nat ∧
   (∃ g', w' = {| self := {| _mappings := ms;
                             _used_numbers := <[prefix := {[n]} ∪ used]> un |};
                  random := g' |}))
  ∨ (n = 1999 ∧ size used = 999%nat ∧
     w' = {| self := {| _mappings := ms; _used_numbers := un |};
             random := g |}).
Proof.
  intros Hinv Ha used.
  destruct (Hinv prefix) as (Hrange & _).
  change (used_of _ prefix) with used in Hrange.
  destruct (alloc_cases prefix ms un g) as [[Hnil Hf]|(n' & g' & Hn' & Hp)].
  - right. fold used in Hnil. rewrite Hf in Ha.
    pose proof (available_nil_size used Hrange Hnil) as Hsz.
    injection Ha as Hn Hw. subst n w'. fold used. rewrite Hsz.
    split; [done|]. by split.
  - left. rewrite Hp in Ha. injection Ha as Hn Hw. subst n' w'.
    fold used in Hn'. apply elem_of_available in Hn' as [Hr Hout].
    split; [done|]. split; [done|]. split; [|by exists g'].
    pose proof (used_size_le used Hrange) as Hle.
    destruct (decide (size used = 999%nat)) as [Heq|]; [|lia].
    exfalso. apply Hout.
    assert (used = list_to_set (seqZ 1 999)) as Hfull.
    { apply set_subseteq_size_eq.
      - intros k Hk. apply elem_of_list_to_set, elem_of_seqZ.
        specialize (Hrange k Hk). lia.
      - rewrite primary_size. lia. }
    rewrite Hfull. apply elem_of_list_to_set, elem_of_seqZ. lia.
Qed.

(** Recording a number of the primary range keeps the invariant. *)
Lemma session_inv_use prefix n ms un :
  session_inv {| _mappings := ms; _used_numbers := un |} →
  1 ≤ n ≤ 999 →
  (size (default ∅ (un !! prefix)) < 999)%nat →
  session_inv
    {| _mappings := ms;
       _used_numbers := <[prefix := {[n]} ∪ default ∅ (un !! prefix)]> un |}.
Proof.
  intros Hinv Hn Hsz q. destruct (Hinv q) as (H1 & H2 & H3).
  rewrite used_of_insert.
  change (mapping_of {| _mappings := ms; _used_numbers := _ |} q)
    with (mapping_of {| _mappings := ms; _used_numbers := un |} q).
  destruct (decide (prefix = q)) as [->|Hne]; [|done].
  change (default ∅ (un !! q))
    with (used_of {| _mappings := ms; _used_numbers := un |} q) in *.
  split; [|split; [|done]].
  - intros k [Hk|Hk]%elem_of_union; [|by apply H1].
    rewrite elem_of_singleton in Hk. lia.
  - intros v f Hv. destruct (H2 v f Hv) as (k & -> & [Hk|[_ Hfull]]); [|lia].
    exists k. split; [done|]. left. apply elem_of_union. by right.
Qed.

(** Storing the name of a number keeps the invariant, when the number is a
    used one whose name is not stored yet, or the fallback number of a full
    range. *)
Lemma session_inv_store prefix real_value n ms un :
  let m := {| _mappings := ms; _used_numbers := un |} in
  session_inv m →
  (n ∈ used_of m prefix
   ∧ (∀ v f, mapping_of m prefix !! v = Some f → f ≠ fake_name prefix n))
  ∨ (n = 1999 ∧ size (used_of m prefix) = 999%nat) →
  session_inv
    {| _mappings :=
         <[prefix := <[real_value := fake_name prefix n]>
                       (mapping_of m prefix)]> ms;
       _used_numbers := un |}.
Proof.
  intros m Hinv Hn q. destruct (Hinv q) as (H1 & H2 & H3).
  rewrite mapping_of_insert.
  change (used_of {| _mappings := _; _used_numbers := un |} q)
    with (used_of m q).
  destruct (decide (prefix = q)) as [->|Hne]; [|done].
  split; [done|]. split.
  - intros v f. rewrite lookup_insert.
    destruct (decide (real_value = v)) as [<-|Hv]; simpl.
    + intros [= <-]. exists n. split; [done|]. tauto.
    + apply H2.
  - intros v1 v2 f. rewrite !lookup_insert.
    destruct (decide (real_value = v1)) as [<-|Hv1];
      destruct (decide (real_value = v2)) as [<-|Hv2]; simpl; try done.
    + intros [= <-] Hv Hf. exfalso.
      destruct Hn as [[_ Hnew]|[-> _]]; [|done]. by apply (Hnew v2 _ Hv).
    + intros Hv [= <-] Hf. exfalso.
      destruct Hn as [[_ Hnew]|[-> _]]; [|done]. by apply (Hnew v1 _ Hv).
    + apply H3.
Qed.

(** The allocator keeps the invariant. *)
Lemma session_inv_alloc prefix w :
  session_inv (self w) →
  session_inv (self (_get_random_number randbelow prefix w).2).
Proof.
  destruct w as [[ms un] g]. simpl. intros Hinv.
  destruct (_get_random_number randbelow prefix _) as [r w'] eqn:Ea.
  assert (∃ n, r = Return n) as [n ->].
  { destruct (alloc_cases prefix ms un g) as [[_ H]|(k & g' & _ & H)];
      rewrite H in Ea; injection Ea as <- _; eauto. }
  destruct (alloc_result prefix ms un g n w' Hinv Ea)
    as [(Hn & _ & Hsz & g' & ->)|(_ & _ & ->)]; simpl; [|done].
  by apply session_inv_use.
Qed.

(** So does the mapper. *)
Lemma session_inv_map prefix real_value w :
  session_inv (self w) →
  session_inv (self (get_fake_value randbelow prefix real_value w).2).
Proof.
  destruct w as [[ms un] g]. simpl. intros Hinv.
  destruct (default ∅ (ms !! prefix) !! real_value) as [fake|] eqn:Em.
  - by rewrite (get_fake_value_hit prefix real_value fake).
  - destruct (get_fake_value_miss prefix real_value ms un g Em)
      as (n & un' & g' & Ha & ->). simpl.
    destruct (alloc_result prefix ms un g n _ Hinv Ha)
      as [(Hn & Hout & Hsz & g'' & Hw)|(-> & Hsz & Hw)];
      injection Hw as -> _.
    + apply (session_inv_store prefix real_value n ms).
      { by apply session_inv_use. }
      left. rewrite used_of_insert, decide_True by done.
      split; [apply elem_of_union; left; by apply elem_of_singleton|].
      intros v f Hv ->. destruct (Hinv prefix) as (H1 & H2 & _).
      destruct (H2 v _ Hv) as (k & Hk & [Hin|[_ Hfull]]);
        [|unfold used_of in Hfull; simpl in Hfull; lia].
      apply fake_name_inj in Hk; [|lia|specialize (H1 k Hin); lia].
      subst k. by apply Hout.
    + apply (session_inv_store prefix real_value 1999 ms un); [done|].
      by right.
Qed.

Lemma perform_world (c : call) w :
  (perform randbelow c w).2
  = match c with
    | Allocate prefix => (_get_random_number randbelow prefix w).2
    | MapValue prefix real_value =>
        (get_fake_value randbelow prefix real_value w).2
    end.
Proof.
  destruct c as [prefix|prefix real_value]; unfold perform, bind.
  - by destruct (_get_random_number _ _ _) as [[n|e] w'].
  - by destruct (get_fake_value _ _ _ _) as [[f|e] w'].
Qed.

Lemma session_inv_run (cs : list call) w :
  session_inv (self w) → session_inv (self (run randbelow cs w)).
Proof.
  revert w. induction cs as [|c cs IH]; intros w Hinv; simpl; [done|].
  apply IH. rewrite perform_world.
  destruct c; [by apply session_inv_alloc|by apply session_inv_map].
Qed.

Lemma reachable_inv w : reachable randbelow w → session_inv (self w).
Proof.
  intros (g & cs & ->). apply session_inv_run, session_inv_init.
Qed.

Lemma run_app (cs cs' : list call) w :
  run randbelow (cs ++ cs') w = run randbelow cs' (run randbelow cs w).
Proof. revert w. induction cs as [|c cs IH]; intros w; simpl; [done|apply IH]. Qed.

Lemma reachable_run (cs : list call) w :
  reachable randbelow w → reachable randbelow (run randbelow cs w).
Proof.
  intros (g & cs0 & ->). exists g, (cs0 ++ cs). by rewrite run_app.
Qed.

(** The allocator leaves the tables alone. *)
Lemma alloc_mappings prefix w :
  _mappings (self (_get_random_number randbelow prefix w).2)
  = _mappings (self w).
Proof.
  destruct w as [[ms un] g].
  by destruct (alloc_cases prefix ms un g) as [[_ ->]|(n & g' & _ & ->)].
Qed.

(** The mapper always returns a name, the one its table then holds. *)
Lemma get_fake_value_stored prefix real_value w :
  ∃ fake,
    (get_fake_value randbelow prefix real_value w).1 = Return fake
    ∧ mapping_of (self (get_fake_value randbelow prefix real_value w).2) prefix
        !! real_value = Some fake.
Proof.
  destruct (mapping_of (self w) prefix !! real_value) as [fake|] eqn:Em.
  - exists fake. by rewrite (get_fake_value_hit prefix real_value fake).
  - destruct w as [[ms un] g].
    destruct (get_fake_value_miss prefix real_value ms un g Em)
      as (n & un' & g' & _ & ->).
    exists (fake_name prefix n). split; [done|]. simpl.
    rewrite mapping_of_insert, decide_True by done. apply lookup_insert_eq.
Qed.

(** An entry of a table is never changed or removed. *)
Lemma get_fake_value_mono prefix real_value w q v fake :
  mapping_of (self w) q !! v = Some fake →
  mapping_of (self (get_fake_value randbelow prefix real_value w).2) q !! v
  = Some fake.
Proof.
  intros Hv.
  destruct (mapping_of (self w) prefix !! real_value) as [f|] eqn:Em.
  - by rewrite (get_fake_value_hit prefix real_value f).
  - destruct w as [[ms un] g].
    destruct (get_fake_value_miss prefix real_value ms un g Em)
      as (n & un' & g' & _ & ->). simpl.
    rewrite mapping_of_insert. destruct (decide (prefix = q)) as [<-|]; [|done].
    rewrite lookup_insert. destruct (decide (real_value = v)) as [<-|]; [|done].
    unfold mapping_of in *. simpl in *. congruence.
Qed.

Lemma run_mono (cs : list call) w q v fake :
  mapping_of (self w) q !! v = Some fake →
  mapping_of (self (run randbelow cs w)) q !! v = Some fake.
Proof.
  revert w. induction cs as [|c cs IH]; intros w Hv; simpl; [done|].
  apply IH. rewrite perform_world. destruct c as [p|p rv].
  - unfold mapping_of. by rewrite alloc_mappings.
  - by apply get_fake_value_mono.
Qed.

(** ** Consistency, capacity and format *)

(** C3. Two calls of [get_fake_value] with the same prefix and value on one
    mapper, whatever calls come between them, return the same name; the
    second call is a cache hit that leaves the whole state as it found it:
    the tables, the used numbers of the prefix and the generator. *)
Theorem get_fake_value_consistent w prefix real_value (cs : list call) :
  let first := get_fake_value randbelow prefix real_value w in
  let w2 := run randbelow cs first.2 in
  let second := get_fake_value randbelow prefix real_value w2 in
  (∃ fake, first.1 = Return fake ∧ second.1 = Return fake)
  ∧ second.2 = w2
  ∧ used_of (self second.2) prefix = used_of (self w2) prefix.
Proof.
  intros first w2 second.
  destruct (get_fake_value_stored prefix real_value w) as (fake & Hr & Hs).
  fold first in Hr, Hs.
  pose proof (run_mono cs _ _ _ _ Hs) as Hs2. fold w2 in Hs2.
  pose proof (get_fake_value_hit prefix real_value fake w2 Hs2) as Hhit.
  fold second in Hhit. rewrite Hhit. simpl. split; [by exists fake|done].
Qed.

(** C10. In every state a session reaches, whatever the generator and the
    calls, the used numbers of every prefix lie in [1, 999], so there are at
    most 999 of them; and a call of the allocator that issues a number from
    1000 on leaves the state, and with it the used set, as it was. *)
Theorem used_numbers_in_primary_range g (cs : list call) prefix :
  let w := run randbelow cs {| self := init; random := g |} in
  (∀ n, n ∈ used_of (self w) prefix → 1 ≤ n ≤ 999)
  ∧ (size (used_of (self w) prefix) ≤ 999)%nat
  ∧ (∀ n w', _get_random_number randbelow prefix w = (Return n, w') →
       1000 ≤ n → w' = w).
Proof.
  intros w.
  assert (session_inv (self w)) as Hinv
    by apply session_inv_run, session_inv_init.
  destruct (Hinv prefix) as (Hrange & _).
  split; [done|]. split; [by apply used_size_le|].
  intros n w' Ha Hn. destruct w as [[ms un] gw].
  destruct (alloc_result prefix ms un gw n w' Hinv Ha)
    as [(Hlt & _)|(_ & _ & ->)]; [lia|done].
Qed.

(** C4. In a session, two distinct values mapped under one prefix get
    distinct names, as long as fewer than 999 numbers have been issued for
    the prefix when the later of the two is mapped. *)
Theorem mapping_injective_under_capacity g (cs cs' : list call)
    prefix (v1 v2 : string) :
  let w := run randbelow cs {| self := init; random := g |} in
  let first := get_fake_value randbelow prefix v1 w in
  let w2 := run randbelow cs' first.2 in
  let second := get_fake_value randbelow prefix v2 w2 in
  v1 ≠ v2 →
  (size (used_of (self w2) prefix) < 999)%nat →
  first.1 ≠ second.1.
Proof.
  intros w first w2 second Hne Hsz Heq.
  assert (session_inv (self w)) as Hinv
    by apply session_inv_run, session_inv_init.
  assert (session_inv (self w2)) as Hinv2
    by by apply session_inv_run, session_inv_map.
  assert (session_inv (self second.2)) as Hinv3 by by apply session_inv_map.
  destruct (get_fake_value_stored prefix v1 w) as (f1 & Hr1 & Hs1).
  fold first in Hr1, Hs1.
  pose proof (run_mono cs' _ _ _ _ Hs1) as Hs2. fold w2 in Hs2.
  pose proof (get_fake_value_mono prefix v2 w2 _ _ _ Hs2) as Hs3.
  fold second in Hs3.
  destruct (get_fake_value_stored prefix v2 w2) as (f2 & Hr2 & Hs4).
  fold second in Hr2, Hs4.
  rewrite Hr1, Hr2 in Heq. injection Heq as <-.
  destruct (Hinv2 prefix) as (Hrange & Hnames & _).
  destruct (Hnames v1 f1 Hs2) as (k & -> & [Hk|[_ Hfull]]); [|lia].
  destruct (Hinv3 prefix) as (_ & _ & Hone).
  apply Hne, (Hone v1 v2 _ Hs3 Hs4).
  intros Hk'. apply fake_name_inj in Hk'; specialize (Hrange k Hk); lia.
Qed.

(** In a state of a session, [get_fake_value] returns the format of a
    number from 1 on: on a miss, of the number the allocator issues. *)
Lemma get_fake_value_named prefix real_value w :
  session_inv (self w) →
  ∃ n, 1 ≤ n
    ∧ (get_fake_value randbelow prefix real_value w).1
      = Return (fake_name prefix n)
    ∧ (mapping_of (self w) prefix !! real_value = None →
       (_get_random_number randbelow prefix w).1 = Return n).
Proof.
  intros Hinv.
  destruct (mapping_of (self w) prefix !! real_value) as [fake|] eqn:Em.
  - destruct (Hinv prefix) as (Hrange & Hnames & _).
    destruct (Hnames _ _ Em) as (n & -> & Hcase).
    exists n. rewrite (get_fake_value_hit prefix real_value _ w Em).
    split; [|by split].
    destruct Hcase as [Hin|[-> _]]; [specialize (Hrange n Hin)|]; lia.
  - destruct w as [[ms un] gw].
    destruct (get_fake_value_miss prefix real_value ms un gw Em)
      as (n & un' & g' & Ha & ->).
    exists n. split; [|split; [done|by rewrite Ha]].
    destruct (alloc_result prefix ms un gw n _ Hinv Ha)
      as [(Hlt & _)|(-> & _)]; lia.
Qed.

(** C7. Every name [get_fake_value] returns in a session is the prefix, an
    underscore, and a number from 1 on zero-padded to at least 3 digits,
    written at its natural width from 1000 on; on a miss the number is the
    one the allocator issues in that state. *)
Theorem pseudonym_format g (cs : list call) prefix real_value :
  let w := run randbelow cs {| self := init; random := g |} in
  ∃ n, 1 ≤ n
    ∧ (get_fake_value randbelow prefix real_value w).1
      = Return (prefix +:+ "_" +:+ zero_padded3 n)
    ∧ (mapping_of (self w) prefix !! real_value = None →
       (_get_random_number randbelow prefix w).1 = Return n)
    ∧ (3 ≤ String.length (zero_padded3 n))%nat
    ∧ (1000 ≤ n → zero_padded3 n = str n).
Proof.
  intros w.
  destruct (get_fake_value_named prefix real_value w)
    as (n & Hn & Hr & Hmiss); [apply session_inv_run, session_inv_init|].
  exists n. split; [done|]. unfold fake_name in Hr.
  rewrite zfill_zero_padded3 in Hr by lia.
  split; [done|]. split; [done|].
  split.
  - rewrite <- zfill_zero_padded3 by lia. apply zfill_length. lia.
  - intros Hbig. unfold zero_padded3.
    destruct (Z.ltb_spec n 10); [lia|]. by destruct (Z.ltb_spec n 100); [lia|].
Qed.

(** C5, as the code has it. [get_fake_value] does not look at its prefix:
    in a session it returns a name for the empty prefix as for any other,
    an underscore followed by the padded number, and raises nothing. *)
Theorem empty_prefix_is_mapped g (cs : list call) real_value :
  let w := run randbelow cs {| self := init; random := g |} in
  ∃ n, 1 ≤ n
    ∧ get_fake_value randbelow "" real_value w
      = (Return ("_" +:+ zero_padded3 n),
         (get_fake_value randbelow "" real_value w).2).
Proof.
  intros w.
  destruct (get_fake_value_named "" real_value w)
    as (n & Hn & Hr & _); [apply session_inv_run, session_inv_init|].
  exists n. split; [done|].
  destruct (get_fake_value randbelow "" real_value w) as [r w'].
  simpl in *. subst r. unfold fake_name.
  by rewrite zfill_zero_padded3, append_nil by lia.
Qed.

(** ** Exhaustion of the primary range *)

(** Each call of the allocator uses one more number of the primary range,
    until all 999 are used. *)
Lemma alloc_size prefix w :
  session_inv (self w) →
  size (used_of (self (_get_random_number randbelow prefix w).2) prefix)
  = Nat.min 999 (S (size (used_of (self w) prefix))).
Proof.
  destruct w as [[ms un] g]. cbn [self]. intros Hinv.
  destruct (_get_random_number randbelow prefix _) as [r w'] eqn:Ea.
  assert (∃ n, r = Return n) as [n ->].
  { destruct (alloc_cases prefix ms un g) as [[_ H]|(k & g' & _ & H)];
      rewrite H in Ea; injection Ea as <- _; eauto. }
  destruct (alloc_result prefix ms un g n w' Hinv Ea)
    as [(Hn & Hout & Hsz & g' & ->)|(_ & Hfull & ->)]; cbn [snd self].
  - rewrite used_of_insert, decide_True by done.
    rewrite size_union by (apply disjoint_singleton_l; exact Hout).
    rewrite size_singleton. unfold used_of. cbn [_used_numbers]. lia.
  - unfold used_of. cbn [_used_numbers]. lia.
Qed.

Lemma allocate_repeatedly_size (k : nat) prefix w :
  session_inv (self w) →
  size (used_of (self (run randbelow (replicate k (Allocate prefix)) w)) prefix)
  = Nat.min 999 (size (used_of (self w) prefix) + k).
Proof.
  revert w. induction k as [|k IH]; intros w Hinv; cbn [replicate run].
  - destruct (Hinv prefix) as (Hrange & _).
    pose proof (used_size_le _ Hrange). lia.
  - rewrite perform_world, IH by by apply session_inv_alloc.
    rewrite alloc_size by done. lia.
Qed.

(** The results of successive calls, one by one. *)
Lemma allocations_lookup (k i : nat) prefix w :
  (i < k)%nat →
  allocations randbelow k prefix w !! i
  = Some (_get_random_number randbelow prefix
            (run randbelow (replicate i (Allocate prefix)) w)).1.
Proof.
  revert i w. induction k as [|k IH]; intros i w Hi; [lia|].
  cbn [allocations replicate run].
  destruct (_get_random_number randbelow prefix w) as [r w'] eqn:Ea.
  destruct i as [|i]; cbn [replicate run].
  - by rewrite Ea.
  - rewrite perform_world, Ea. cbn [snd].
    rewrite <- IH by lia. reflexivity.
Qed.

(** From the 1000th call on a new mapper, the allocator answers 1999. *)
Lemma allocations_after_exhaustion g prefix (k i : nat) :
  (999 ≤ i < k)%nat →
  allocations randbelow k prefix {| self := init; random := g |} !! i
  = Some (Return 1999).
Proof.
  intros Hi. rewrite allocations_lookup by lia. f_equal.
  set (w := run randbelow _ _).
  assert (session_inv (self w)) as Hinv
    by apply session_inv_run, session_inv_init.
  assert (size (used_of (self w) prefix) = 999%nat) as Hsz.
  { unfold w. rewrite allocate_repeatedly_size by apply session_inv_init.
    cbn [self]. rewrite used_of_init, size_empty. lia. }
  destruct (Hinv prefix) as (Hrange & _).
  assert (available_numbers (used_of (self w) prefix) = []) as Hnil.
  { destruct (decide (available_numbers (used_of (self w) prefix) = []))
      as [|Hav]; [done|].
    destruct w as [[ms un] gw].
    destruct (alloc_primary prefix ms un gw Hav) as (n & g' & Hn & Ha).
    destruct (alloc_result prefix ms un gw n _ Hinv Ha)
      as [(_ & _ & Hlt & _)|(-> & _ & _)].
    - unfold used_of in Hsz. simpl in Hsz. lia.
    - apply elem_of_available in Hn. lia. }
  rewrite (alloc_fallback prefix w Hnil). simpl. by rewrite Hsz.
Qed.

(** A used number stays used. *)
Lemma alloc_used_mono prefix w q (n : Z) :
  n ∈ used_of (self w) q →
  n ∈ used_of (self (_get_random_number randbelow prefix w).2) q.
Proof.
  destruct w as [[ms un] g]. intros Hn.
  destruct (alloc_cases prefix ms un g) as [[_ ->]|(k & g' & _ & ->)]; [done|].
  cbn [snd self]. rewrite used_of_insert.
  destruct (decide (prefix = q)) as [<-|]; [|done].
  apply elem_of_union. by right.
Qed.

Lemma get_fake_value_used_mono prefix real_value w q (n : Z) :
  n ∈ used_of (self w) q →
  n ∈ used_of (self (get_fake_value randbelow prefix real_value w).2) q.
Proof.
  intros Hn.
  destruct (mapping_of (self w) prefix !! real_value) as [f|] eqn:Em.
  - by rewrite (get_fake_value_hit prefix real_value f).
  - destruct w as [[ms un] g].
    destruct (get_fake_value_miss prefix real_value ms un g Em)
      as (k & un' & g' & Ha & ->).
    pose proof (alloc_used_mono prefix
                  {| self := {| _mappings := ms; _used_numbers := un |};
                     random := g |} q n Hn) as Hmono.
    by rewrite Ha in Hmono.
Qed.

Lemma run_used_mono (cs : list call) w q (n : Z) :
  n ∈ used_of (self w) q → n ∈ used_of (self (run randbelow cs w)) q.
Proof.
  revert w. induction cs as [|c cs IH]; intros w Hn; simpl; [done|].
  apply IH. rewrite perform_world. destruct c as [p|p rv].
  - by apply alloc_used_mono.
  - by apply get_fake_value_used_mono.
Qed.

(** The first 1000 calls on a new mapper return 1000 different numbers:
    the 999 of the primary range in some order, then 1999. *)
Lemma allocations_differ_within_capacity g prefix (i j : nat) :
  (i < j < 1000)%nat →
  allocations randbelow 1000 prefix {| self := init; random := g |} !! i
  ≠ allocations randbelow 1000 prefix {| self := init; random := g |} !! j.
Proof.
  intros Hij. rewrite !allocations_lookup by lia.
  set (w0 := {| self := init; random := g |}).
  replace j with (i + (1 + (j - i - 1)))%nat by lia.
  rewrite replicate_add, run_app.
  set (wi := run randbelow (replicate i (Allocate prefix)) w0).
  cbn [replicate Nat.add run]. rewrite perform_world.
  assert (session_inv (self wi)) as Hinv
    by apply session_inv_run, session_inv_init.
  assert (size (used_of (self wi) prefix) = i) as Hsz.
  { unfold wi. rewrite allocate_repeatedly_size by apply session_inv_init.
    cbn [self]. rewrite used_of_init, size_empty. lia. }
  set (wj := run randbelow _ (_get_random_number randbelow prefix wi).2).
  assert (session_inv (self wj)) as Hinvj
    by by apply session_inv_run, session_inv_alloc.
  assert (∃ n, (_get_random_number randbelow prefix wi).1 = Return n
               ∧ 1 ≤ n ≤ 999 ∧ n ∈ used_of (self wj) prefix)
    as (n & Hri & Hn & Hused).
  { unfold wj. clearbody wi. destruct wi as [[ms un] gi].
    destruct (_get_random_number randbelow prefix _) as [r w'] eqn:Ea.
    assert (∃ n, r = Return n) as [n ->].
    { destruct (alloc_cases prefix ms un gi) as [[_ H]|(k & g' & _ & H)];
        rewrite H in Ea; injection Ea as <- _; eauto. }
    destruct (alloc_result prefix ms un gi n w' Hinv Ea)
      as [(Hn & _ & _ & g' & ->)|(_ & Hfull & _)];
      [|unfold used_of in Hsz; cbn [self _used_numbers] in Hsz; lia].
    exists n. split; [done|]. split; [done|]. cbn [snd].
    apply run_used_mono. cbn [self]. rewrite used_of_insert, decide_True by done.
    apply elem_of_union. left. by apply elem_of_singleton. }
  rewrite Hri. clearbody wj. destruct wj as [[ms un] gj].
  destruct (_get_random_number randbelow prefix
              {| self := {| _mappings := ms; _used_numbers := un |};
                 random := gj |}) as [r w'] eqn:Ea.
  assert (∃ n', r = Return n') as [n' ->].
  { destruct (alloc_cases prefix ms un gj) as [[_ H]|(k & g' & _ & H)];
      rewrite H in Ea; injection Ea as <- _; eauto. }
  cbn [fst]. intros [= ->].
  destruct (alloc_result prefix ms un gj n' w' Hinvj Ea)
    as [(_ & Hout & _)|(-> & _)]; [|lia].
  by apply Hout.
Qed.

(** C1. On a new mapper, whatever the generator and the prefix, the 1000th
    and the 1001st call of [_get_random_number] both return 1999: the
    sequence of issued numbers has a repeat once the primary range is
    used up. *)
Theorem allocation_repeats_once_exhausted g prefix :
  let issued := allocations randbelow 1001 prefix
                  {| self := init; random := g |} in
  issued !! 999%nat = Some (Return 1999)
  ∧ issued !! 1000%nat = Some (Return 1999)
  ∧ ¬ NoDup issued.
Proof.
  intros issued.
  assert (issued !! 999%nat = Some (Return 1999)) as H1
    by (apply allocations_after_exhaustion; lia).
  assert (issued !! 1000%nat = Some (Return 1999)) as H2
    by (apply allocations_after_exhaustion; lia).
  split; [done|]. split; [done|].
  intros Hnd. pose proof (NoDup_lookup _ _ _ _ Hnd H1 H2). lia.
Qed.

(** C2. On a new mapper, whatever the generator and the prefix, the calls
    number [1000 + j] and [1001 + j] of [_get_random_number] both return
    1999, for every [j]: once the primary range is used up the results are
    1999, 1999, ..., where the claim has 1000, 1001, ..., each greater than
    the one before. *)
Theorem fallback_allocations_do_not_increase g prefix (j : nat) :
  let issued := allocations randbelow (1001 + j) prefix
                  {| self := init; random := g |} in
  issued !! (999 + j)%nat = Some (Return 1999)
  ∧ issued !! (1000 + j)%nat = Some (Return 1999).
Proof.
  intros issued. split; apply allocations_after_exhaustion; lia.
Qed.

End SessionFacts.

(** ** Data frames *)

Lemma df_getitem_names (df : DataFrame) (col : string) :
  is_Some (df_getitem df col) ↔ col ∈ df.*1.
Proof.
  induction df as [|[name series] df IH]; simpl.
  - split; [by intros [? ?]|by intros ?%not_elem_of_nil].
  - rewrite elem_of_cons. destruct (String.eqb_spec name col) as [->|Hne].
    + split; [by left|by eexists].
    + rewrite IH. split; [by right|]. by intros [->|?].
Qed.

Lemma df_getitem_setitem (df : DataFrame) (col : string) (series : list cell) :
  df_getitem (df_setitem df col series) col = Some series.
Proof.
  induction df as [|[name old] df IH]; simpl.
  - by rewrite String.eqb_refl.
  - destruct (String.eqb_spec name col) as [->|Hne]; simpl.
    + by rewrite String.eqb_refl.
    + by destruct (String.eqb_spec name col).
Qed.

Lemma df_getitem_setitem_ne (df : DataFrame) (col col' : string)
    (series : list cell) :
  col ≠ col' →
  df_getitem (df_setitem df col series) col' = df_getitem df col'.
Proof.
  intros Hne. induction df as [|[name old] df IH]; simpl.
  - by destruct (String.eqb_spec col col').
  - destruct (String.eqb_spec name col) as [->|Hn]; simpl.
    + by destruct (String.eqb_spec col col').
    + by rewrite IH.
Qed.

(** Assigning to a column that is there keeps the names in their order. *)
Lemma df_setitem_names (df : DataFrame) (col : string) (series : list cell) :
  col ∈ df.*1 → (df_setitem df col series).*1 = df.*1.
Proof.
  induction df as [|[name old] df IH]; simpl.
  - by intros ?%not_elem_of_nil.
  - intros Hin. destruct (String.eqb_spec name col) as [->|Hn]; simpl; [done|].
    f_equal. apply IH. apply elem_of_cons in Hin as [->|Hin]; done.
Qed.

(** A column of another name stays where it is, as it is. *)
Lemma df_setitem_lookup_ne (df : DataFrame) (col : string) (series : list cell)
    (i : nat) (name : string) (cells : list cell) :
  name ≠ col → df !! i = Some (name, cells) →
  df_setitem df col series !! i = Some (name, cells).
Proof.
  intros Hne. revert i. induction df as [|[name' old] df IH]; intros i; simpl.
  - by destruct i.
  - destruct (String.eqb_spec name' col) as [->|Hn].
    + destruct i as [|i]; simpl; [|done]. intros [= -> ->]. done.
    + destruct i as [|i]; simpl; [done|]. apply IH.
Qed.

(** Assigning a series of the same length keeps every column's length. *)
Lemma df_setitem_lengths (df : DataFrame) (col : string)
    (old series : list cell) :
  df_getitem df col = Some old → length series = length old →
  Forall2 (λ a b, length a.2 = length b.2) df (df_setitem df col series).
Proof.
  intros Hget Hlen. induction df as [|[name cells] df IH]; simpl in *; [done|].
  destruct (String.eqb_spec name col) as [->|Hn].
  - injection Hget as ->. constructor; [done|]. by apply Forall_Forall2_diag, Forall_true.
  - constructor; [done|]. by apply IH.
Qed.

Lemma dropna_cons (value : cell) (series : list cell) :
  dropna (value :: series)
  = if isna value then dropna series else value :: dropna series.
Proof.
  unfold dropna. rewrite filter_cons.
  destruct (isna value); by destruct (decide _).
Qed.

Lemma df_getitem_dropna (df : DataFrame) (col : string) :
  df_getitem (df_dropna df) col = dropna <$> df_getitem df col.
Proof.
  induction df as [|[name cells] df IH]; simpl; [done|].
  by destruct (String.eqb_spec name col).
Qed.

Lemma df_setitem_dropna (df : DataFrame) (col : string) (series : list cell) :
  df_setitem (df_dropna df) col (dropna series)
  = df_dropna (df_setitem df col series).
Proof.
  induction df as [|[name cells] df IH]; simpl; [done|].
  destruct (String.eqb_spec name col); simpl; [done|]. by rewrite IH.
Qed.

(** ** Replacing the cells of a column *)

Section TableFacts.

Context {G : Type} (randbelow : G → N → N * G).

Local Abbreviation World := (@World G).
Implicit Types (w : World) (df : DataFrame) (series : list cell).
Implicit Types (prefix col : string).

(** A missing cell comes back as it is; nothing is called and nothing
    changes. *)
Lemma replace_value_missing prefix (value : cell) w :
  isna value = true →
  replace_value randbelow prefix value w = (Return value, w).
Proof. intros Hna. unfold replace_value. by rewrite Hna. Qed.

(** Any other cell becomes the name the mapper gives to its text. *)
Lemma replace_value_present prefix (value : cell) w :
  isna value = false →
  ∃ fake,
    replace_value randbelow prefix value w
    = (Return (Text fake),
       (get_fake_value randbelow prefix (str_cell value) w).2)
    ∧ mapping_of
        (self (get_fake_value randbelow prefix (str_cell value) w).2) prefix
        !! str_cell value = Some fake.
Proof.
  intros Hna. unfold replace_value, bind. rewrite Hna.
  destruct (get_fake_value_stored randbelow prefix (str_cell value) w)
    as (fake & Hr & Hs).
  destruct (get_fake_value randbelow prefix (str_cell value) w) as [r w'].
  simpl in *. subst r. by exists fake.
Qed.

Lemma replaced_mono prefix (cs : list call) w (value value' : cell) :
  replaced prefix (self w) value value' →
  replaced prefix (self (run randbelow cs w)) value value'.
Proof.
  unfold replaced. destruct (isna value); [done|].
  intros (fake & -> & Hm). exists fake. split; [done|]. by apply run_mono.
Qed.

(** [series.apply(replace_value)] never raises; it makes the calls of the
    cells that are not missing, and gives a series of the same length whose
    cells are the replaced cells, row by row. *)
Lemma series_apply_spec prefix series w :
  ∃ out,
    series_apply (replace_value randbelow prefix) series w
    = (Return out, run randbelow (series_calls prefix series) w)
    ∧ Forall2 (replaced prefix
                 (self (run randbelow (series_calls prefix series) w)))
        series out.
Proof.
  revert w. induction series as [|value rest IH]; intros w.
  - exists []. split; [done|constructor].
  - unfold series_calls. rewrite dropna_cons.
    cbn [series_apply]. unfold bind.
    destruct (isna value) eqn:Hna.
    + rewrite replace_value_missing by done.
      destruct (IH w) as (out & -> & Hout). unfold ret.
      exists (value :: out). split; [done|].
      constructor; [|done]. unfold replaced. by rewrite Hna.
    + destruct (replace_value_present prefix value w Hna) as (fake & -> & Hs).
      cbn [map run]. rewrite perform_world.
      set (w1 := (get_fake_value randbelow prefix (str_cell value) w).2) in *.
      destruct (IH w1) as (out & -> & Hout). unfold ret.
      exists (Text fake :: out). split; [done|].
      constructor; [|done].
      apply replaced_mono. unfold replaced. rewrite Hna. by exists fake.
Qed.

(** The missing cells of a series play no part: without them the same calls
    are made, and the other cells get the same names. *)
Lemma series_apply_dropna prefix series w out w' :
  series_apply (replace_value randbelow prefix) series w
  = (Return out, w') →
  series_apply (replace_value randbelow prefix) (dropna series) w
  = (Return (dropna out), w').
Proof.
  revert w out. induction series as [|value rest IH]; intros w out.
  - intros [= <- <-]. done.
  - rewrite dropna_cons. cbn [series_apply]. unfold bind at 1.
    destruct (isna value) eqn:Hna.
    + rewrite replace_value_missing by done. unfold bind at 1.
      destruct (series_apply _ rest w) as [[out'|e] w1] eqn:Er;
        [|done].
      unfold ret. intros [= <- <-]. rewrite dropna_cons, Hna. by apply IH.
    + destruct (replace_value_present prefix value w Hna) as (fake & Hv & _).
      rewrite Hv. unfold bind at 1.
      destruct (series_apply _ rest _) as [[out'|e] w1] eqn:Er;
        [|done].
      unfold ret. intros [= <- <-]. rewrite dropna_cons. simpl.
      cbn [series_apply]. unfold bind. rewrite Hv.
      by rewrite (IH _ _ Er).
Qed.

(** ** The replacement loop *)

(** One turn of the loop on a column that is there. *)
Lemma replace_columns_step col prefix (rest : list (string * string))
    df w series :
  df_getitem df col = Some series →
  ∃ out,
    Forall2 (replaced prefix
               (self (run randbelow (series_calls prefix series) w)))
      series out
    ∧ replace_columns randbelow ((col, prefix) :: rest) df w
      = replace_columns randbelow rest (df_setitem df col out)
          (run randbelow (series_calls prefix series) w).
Proof.
  intros Hget. destruct (series_apply_spec prefix series w) as (out & Ha & Hr).
  exists out. split; [done|]. cbn [replace_columns]. by rewrite Hget, Ha.
Qed.

(** Over columns that are all there, the loop ends normally; the frame it
    leaves has the same names in the same order and columns of the same
    lengths, and the columns it was not asked to replace are where they
    were, as they were. *)
Lemma replace_columns_valid (column_prefixes : list (string * string)) df w :
  (∀ col, col ∈ column_prefixes.*1 → col ∈ df.*1) →
  ∃ df' (cs : list call),
    replace_columns randbelow column_prefixes df w
    = (Return tt, df', run randbelow cs w)
    ∧ df'.*1 = df.*1
    ∧ Forall2 (λ a b, length a.2 = length b.2) df df'
    ∧ (∀ i name cells, df !! i = Some (name, cells) →
         name ∉ column_prefixes.*1 → df' !! i = Some (name, cells))
    ∧ (∀ col, col ∉ column_prefixes.*1 →
         df_getitem df' col = df_getitem df col).
Proof.
  revert df w.
  induction column_prefixes as [|[col prefix] rest IH]; intros df w Hall.
  - exists df, []. split; [done|]. split; [done|].
    split; [by apply Forall_Forall2_diag, Forall_true|done].
  - assert (col ∈ df.*1) as Hcol by (apply Hall; simpl; left).
    destruct (proj2 (df_getitem_names df col) Hcol) as [series Hget].
    destruct (replace_columns_step col prefix rest df w series Hget)
      as (out & Hout & ->).
    set (w1 := run randbelow (series_calls prefix series) w).
    set (df1 := df_setitem df col out).
    assert (df1.*1 = df.*1) as Hnames by by apply df_setitem_names.
    destruct (IH df1 w1) as (df' & cs & -> & Hn & Hl & Hpos & Hget').
    { intros c Hc. rewrite Hnames. apply Hall. simpl. by right. }
    exists df', (series_calls prefix series ++ cs).
    rewrite run_app. fold w1. split; [done|]. split; [congruence|].
    split; [|split].
    + eapply Forall2_trans; [|by apply (df_setitem_lengths df col series out),
        eq_sym, (Forall2_length _ _ _ Hout)|exact Hl].
      simpl. intros x y z Hxy Hyz. congruence.
    + intros i name cells Hi Hname. simpl in Hname.
      apply not_elem_of_cons in Hname as [Hne Hrest].
      apply Hpos; [|done]. by apply df_setitem_lookup_ne.
    + intros c Hc. simpl in Hc. apply not_elem_of_cons in Hc as [Hne Hrest].
      rewrite Hget' by done. by apply df_getitem_setitem_ne.
Qed.

(** A column the loop is asked to replace once ends as its replaced cells,
    row by row, under the mapper the loop leaves. *)
Lemma replace_columns_assigned (column_prefixes : list (string * string))
    df w col prefix series :
  NoDup column_prefixes.*1 →
  (∀ c, c ∈ column_prefixes.*1 → c ∈ df.*1) →
  (col, prefix) ∈ column_prefixes →
  df_getitem df col = Some series →
  ∃ out,
    df_getitem (replace_columns randbelow column_prefixes df w).1.2 col
    = Some out
    ∧ Forall2
        (replaced prefix
           (self (replace_columns randbelow column_prefixes df w).2))
        series out.
Proof.
  revert df w.
  induction column_prefixes as [|[col0 prefix0] rest IH];
    intros df w Hnd Hall Hin Hget.
  - by apply not_elem_of_nil in Hin.
  - simpl in Hnd. apply NoDup_cons in Hnd as [Hfresh Hnd].
    assert (col0 ∈ df.*1) as Hcol by (apply Hall; simpl; left).
    destruct (proj2 (df_getitem_names df col0) Hcol) as [series0 Hget0].
    destruct (replace_columns_step col0 prefix0 rest df w series0 Hget0)
      as (out0 & Hout0 & ->).
    set (w1 := run randbelow (series_calls prefix0 series0) w) in *.
    set (df1 := df_setitem df col0 out0).
    assert (df1.*1 = df.*1) as Hnames by by apply df_setitem_names.
    assert (∀ c, c ∈ rest.*1 → c ∈ df1.*1) as Hall1.
    { intros c Hc. rewrite Hnames. apply Hall. simpl. by right. }
    apply elem_of_cons in Hin as [[= -> ->]|Hin].
    + destruct (replace_columns_valid rest df1 w1 Hall1)
        as (df' & cs & -> & _ & _ & _ & Hsame). simpl.
      exists out0. rewrite Hsame by done. unfold df1.
      rewrite df_getitem_setitem. split; [done|].
      assert (series0 = series) as -> by congruence.
      eapply Forall2_impl; [exact Hout0|].
      intros x y. apply replaced_mono.
    + assert (col0 ≠ col) as Hne.
      { intros ->. apply Hfresh.
        by apply (list_elem_of_fmap_2 fst) in Hin. }
      apply (IH df1 w1 Hnd Hall1 Hin). unfold df1.
      by rewrite df_getitem_setitem_ne.
Qed.

(** The loop on a list of columns in two parts. *)
Lemma replace_columns_app (cps1 cps2 : list (string * string)) df w :
  replace_columns randbelow (cps1 ++ cps2) df w
  = match replace_columns randbelow cps1 df w with
    | (Return _, df1, w1) => replace_columns randbelow cps2 df1 w1
    | (Raise e, df1, w1) => (Raise e, df1, w1)
    end.
Proof.
  revert df w. induction cps1 as [|[col prefix] rest IH]; intros df w; simpl.
  - done.
  - destruct (df_getitem df col) as [series|]; [|done].
    destruct (series_apply _ series w) as [[out|e] w1]; [|done]. apply IH.
Qed.

(** A missing cell of any column is still there, in its row, when the loop
    stops, however it stops. *)
Lemma replace_columns_missing (column_prefixes : list (string * string))
    df w col series (i : nat) (value : cell) :
  df_getitem df col = Some series → series !! i = Some value →
  isna value = true →
  ∃ series',
    df_getitem (replace_columns randbelow column_prefixes df w).1.2 col
    = Some series'
    ∧ series' !! i = Some value.
Proof.
  revert df w series.
  induction column_prefixes as [|[col0 prefix0] rest IH];
    intros df w series Hget Hi Hna.
  - by exists series.
  - destruct (df_getitem df col0) as [series0|] eqn:Hget0.
    + destruct (replace_columns_step col0 prefix0 rest df w series0 Hget0)
        as (out & Hout & ->).
      destruct (decide (col0 = col)) as [->|Hne].
      * assert (series0 = series) as -> by congruence.
        destruct (Forall2_lookup_l _ _ _ _ _ Hout Hi) as (y & Hy & Hrep).
        unfold replaced in Hrep. rewrite Hna in Hrep. subst y.
        apply (IH _ _ out); [apply df_getitem_setitem|done..].
      * apply (IH _ _ series); [|done..].
        by rewrite df_getitem_setitem_ne.
    + cbn [replace_columns]. rewrite Hget0. by exists series.
Qed.

(** The loop on the frame without its missing cells: the same outcome, the
    same mapper and generator, and the same frame but for those cells. *)
Lemma replace_columns_dropna (column_prefixes : list (string * string)) df w :
  replace_columns randbelow column_prefixes (df_dropna df) w
  = ((replace_columns randbelow column_prefixes df w).1.1,
     df_dropna (replace_columns randbelow column_prefixes df w).1.2,
     (replace_columns randbelow column_prefixes df w).2).
Proof.
  revert df w.
  induction column_prefixes as [|[col prefix] rest IH]; intros df w; [done|].
  cbn [replace_columns]. rewrite df_getitem_dropna.
  destruct (df_getitem df col) as [series|]; [|done]. cbn [fmap option_fmap option_map].
  destruct (series_apply_spec prefix series w) as (out & Ha & _).
  rewrite Ha, (series_apply_dropna prefix series w out _ Ha).
  by rewrite df_setitem_dropna, IH.
Qed.

(** C8. When every column named in the assignments is in the frame, step 6
    ends normally and the frame has the same column names in the same order
    and columns of the same lengths; every column that is not named is in
    its place with its name and cells as they were; and every named column
    holds, row by row, the replaced cell of the row. *)
Theorem transform_preserves_shape (column_prefixes : list (string * string))
    df g :
  NoDup column_prefixes.*1 →
  (∀ col, col ∈ column_prefixes.*1 → col ∈ df.*1) →
  ∃ df' w',
    interactive_pseudonymize randbelow column_prefixes df g
    = (Return tt, df', w')
    ∧ df'.*1 = df.*1
    ∧ Forall2 (λ a b, length a.2 = length b.2) df df'
    ∧ (∀ i name cells, df !! i = Some (name, cells) →
         name ∉ column_prefixes.*1 → df' !! i = Some (name, cells))
    ∧ (∀ col prefix series, (col, prefix) ∈ column_prefixes →
         df_getitem df col = Some series →
         ∃ out, df_getitem df' col = Some out
                ∧ Forall2 (replaced prefix (self w')) series out).
Proof.
  intros Hnd Hall. unfold interactive_pseudonymize.
  set (w := {| self := init; random := g |}).
  destruct (replace_columns_valid column_prefixes df w Hall)
    as (df' & cs & Hrun & Hnames & Hlen & Hpos & _).
  exists df', (run randbelow cs w).
  split; [done|]. split; [done|]. split; [done|]. split; [done|].
  intros col prefix series Hin Hget.
  destruct (replace_columns_assigned column_prefixes df w col prefix series
              Hnd Hall Hin Hget) as (out & Hout & Hrep).
  rewrite Hrun in Hout, Hrep. by exists out.
Qed.

(** C9. Whatever the frame and the assignments, a missing cell is in its
    column and row after step 6 as before; [replace_value] returns it as it
    is without a call of the mapper or a change of state; the mapper and the
    generator end as they do on the frame without its missing cells, so no
    entry of a table comes from a missing cell; and step 6 ends normally
    when the named columns are all there. *)
Theorem missing_values_pass_through (column_prefixes : list (string * string))
    df g :
  let result := interactive_pseudonymize randbelow column_prefixes df g in
  (∀ col series (i : nat) value,
     df_getitem df col = Some series → series !! i = Some value →
     isna value = true →
     ∃ series', df_getitem result.1.2 col = Some series'
                ∧ series' !! i = Some value)
  ∧ (∀ prefix value w, isna value = true →
       replace_value randbelow prefix value w = (Return value, w))
  ∧ interactive_pseudonymize randbelow column_prefixes (df_dropna df) g
    = (result.1.1, df_dropna result.1.2, result.2)
  ∧ ((∀ col, col ∈ column_prefixes.*1 → col ∈ df.*1) →
     result.1.1 = Return tt).
Proof.
  intros result. unfold result, interactive_pseudonymize.
  split; [|split; [|split]].
  - intros col series i value. apply replace_columns_missing.
  - intros prefix value w. apply replace_value_missing.
  - apply replace_columns_dropna.
  - intros Hall.
    by destruct (replace_columns_valid column_prefixes df
                   {| self := init; random := g |} Hall)
      as (df' & cs & -> & _).
Qed.

(** C6, as the code has it. When the assignments name a column that is not
    in the frame, after columns that are, step 6 raises the [KeyError] of
    that column once the columns before it have been replaced: the frame it
    leaves is the frame of step 6 on those columns, in which every other
    column is as it was. With no column before, the frame is unmodified. *)
Theorem absent_column_raises_key_error
    (before after : list (string * string)) col prefix df g :
  (∀ c, c ∈ before.*1 → c ∈ df.*1) →
  col ∉ df.*1 →
  ∃ df1 w1,
    interactive_pseudonymize randbelow before df g = (Return tt, df1, w1)
    ∧ interactive_pseudonymize randbelow (before ++ (col, prefix) :: after)
        df g
      = (Raise (KeyError col), df1, w1)
    ∧ (∀ i name cells, df !! i = Some (name, cells) →
         name ∉ before.*1 → df1 !! i = Some (name, cells))
    ∧ (before = [] → df1 = df).
Proof.
  intros Hall Hcol. unfold interactive_pseudonymize.
  set (w := {| self := init; random := g |}).
  destruct (replace_columns_valid before df w Hall)
    as (df1 & cs & Hrun & Hnames & _ & Hpos & _).
  exists df1, (run randbelow cs w). split; [done|].
  split; [|split; [done|]].
  - rewrite replace_columns_app, Hrun. cbn [replace_columns].
    destruct (df_getitem df1 col) as [series|] eqn:Hget; [|done].
    exfalso. apply Hcol. rewrite <- Hnames.
    apply df_getitem_names. by eexists.
  - intros ->. simpl in Hrun. by injection Hrun as <- _.
Qed.

End TableFacts.

(** ** The model at work *)

(** The scenario of the spec: the same value gets the same name, another
    value another name, and the other column is left alone. *)
Example demo_run :
  (interactive_pseudonymize lcg demo_columns demo_frame 42%N).1
  = (Return tt,
     [("Vendor", [Text "Vendor_101"; NaN; Text "Vendor_068"; Text "Vendor_101"]);
      ("Amount", [Number 100; Number 250; PyNone; Number 75])]).
Proof. vm_compute. reflexivity. Qed.

(** Two vendors mapped in one session, with a call for another prefix
    between them. *)
Lemma mapping_injective_under_capacity_witness :
  let first := get_fake_value lcg "Vendor" "Acme" (fresh 42) in
  let w2 := run lcg [MapValue "Program" "Apollo"] first.2 in
  "Acme" ≠ "Boeing"
  ∧ (size (used_of (self w2) "Vendor") < 999)%nat
  ∧ first.1 ≠ (get_fake_value lcg "Vendor" "Boeing" w2).1.
Proof.
  intros first w2.
  assert ("Acme" ≠ "Boeing") as Hne by discriminate.
  assert (size (used_of (self w2) "Vendor") < 999)%nat as Hsz
    by (apply Nat.ltb_lt; vm_compute; reflexivity).
  split; [exact Hne|]. split; [exact Hsz|].
  exact (mapping_injective_under_capacity lcg 42%N []
           [MapValue "Program" "Apollo"] "Vendor" "Acme" "Boeing" Hne Hsz).
Defined.

(** Step 6 on the small report, its one named column being there. *)
Lemma transform_preserves_shape_witness :
  NoDup demo_columns.*1
  ∧ (∀ col, col ∈ demo_columns.*1 → col ∈ demo_frame.*1)
  ∧ ∃ df' w',
      interactive_pseudonymize lcg demo_columns demo_frame 42%N
      = (Return tt, df', w')
      ∧ df'.*1 = demo_frame.*1
      ∧ Forall2 (λ a b, length a.2 = length b.2) demo_frame df'
      ∧ (∀ i name cells, demo_frame !! i = Some (name, cells) →
           name ∉ demo_columns.*1 → df' !! i = Some (name, cells))
      ∧ (∀ col prefix series, (col, prefix) ∈ demo_columns →
           df_getitem demo_frame col = Some series →
           ∃ out, df_getitem df' col = Some out
                  ∧ Forall2 (replaced prefix (self w')) series out).
Proof.
  assert (NoDup demo_columns.*1) as Hnd.
  { simpl. apply NoDup_cons. split; [apply not_elem_of_nil|apply NoDup_nil_2]. }
  assert (∀ col, col ∈ demo_columns.*1 → col ∈ demo_frame.*1) as Hall.
  { simpl. intros col Hcol. apply list_elem_of_singleton in Hcol.
    subst col. left. }
  split; [exact Hnd|]. split; [exact Hall|].
  exact (transform_preserves_shape lcg demo_columns demo_frame 42%N Hnd Hall).
Defined.

(** Step 6 on the small report with a column named that is not there. *)
Lemma absent_column_raises_key_error_witness :
  (∀ c, c ∈ demo_columns.*1 → c ∈ demo_frame.*1)
  ∧ ("Region" ∉ demo_frame.*1)
  ∧ ∃ df1 w1,
      interactive_pseudonymize lcg demo_columns demo_frame 42%N
      = (Return tt, df1, w1)
      ∧ interactive_pseudonymize lcg
          (demo_columns ++ ("Region", "Region") :: [("Amount", "Amount")])
          demo_frame 42%N
        = (Raise (KeyError "Region"), df1, w1)
      ∧ (∀ i name cells, demo_frame !! i = Some (name, cells) →
           name ∉ demo_columns.*1 → df1 !! i = Some (name, cells))
      ∧ (demo_columns = [] → df1 = demo_frame).
Proof.
  assert (∀ c, c ∈ demo_columns.*1 → c ∈ demo_frame.*1) as Hall.
  { simpl. intros c Hc. apply list_elem_of_singleton in Hc. subst c. left. }
  assert ("Region" ∉ demo_frame.*1) as Hcol.
  { simpl. intros Hin.
    apply elem_of_cons in Hin as [Hin|Hin]; [discriminate|].
    apply list_elem_of_singleton in Hin. discriminate. }
  split; [exact Hall|]. split; [exact Hcol|].
  exact (absent_column_raises_key_error lcg demo_columns
           [("Amount", "Amount")] "Region" "Region" demo_frame 42%N Hall Hcol).
Defined.

(** C5, as stated, fails: the empty prefix gets a name and nothing is
    raised. *)
Lemma empty_prefix_returns_name :
  (get_fake_value lcg "" "Acme" (fresh 42)).1 = Return "_101"
  ∧ ∀ e, (get_fake_value lcg "" "Acme" (fresh 42)).1 ≠ Raise e.
Proof.
  assert ((get_fake_value lcg "" "Acme" (fresh 42)).1 = Return "_101") as H
    by (vm_compute; reflexivity).
  split; [exact H|]. intros e. rewrite H. discriminate.
Qed.

(** C6, as stated, fails: with a column that is there named before one that
    is not, step 6 raises [KeyError] with the first column replaced. *)
Lemma absent_column_partial_replacement :
  let result :=
    interactive_pseudonymize lcg [("Vendor", "Vendor"); ("Region", "Region")]
      [("Vendor", [Text "Acme"])] 42%N in
  result.1.1 = Raise (KeyError "Region")
  ∧ result.1.2 = [("Vendor", [Text "Vendor_101"])]
  ∧ result.1.2 ≠ [("Vendor", [Text "Acme"])].
Proof.
  intros result.
  assert (result.1 = (Raise (KeyError "Region"),
                      [("Vendor", [Text "Vendor_101"])])) as H
    by (vm_compute; reflexivity).
  rewrite H. simpl. split; [done|]. split; [done|]. discriminate.
Qed.

(** * More of the mapper *)

Section MapperFacts.

Context {G : Type} (randbelow : G → N → N * G).

Local Abbreviation World := (@World G).
Implicit Types (w : World) (g : G) (prefix real_value : string).

(** Neither method raises, in any state of the mapper, reached by a session
    or not: the allocator returns a number from 1 on, and [get_fake_value]
    returns a name that its table then holds for the value. *)
Theorem mapper_never_raises w prefix real_value :
  (∃ n w', _get_random_number randbelow prefix w = (Return n, w') ∧ 1 ≤ n)
  ∧ (∃ fake w',
       get_fake_value randbelow prefix real_value w = (Return fake, w')
       ∧ mapping_of (self w') prefix !! real_value = Some fake).
Proof.
  split.
  - destruct w as [[ms un] g].
    destruct (alloc_cases randbelow prefix ms un g)
      as [[_ ->]|(n & g' & Hn & ->)].
    + eexists _, _. split; [done|]. lia.
    + exists n. eexists. split; [done|].
      apply elem_of_available in Hn. lia.
  - destruct (get_fake_value_stored randbelow prefix real_value w)
      as (fake & Hr & Hs).
    destruct (get_fake_value randbelow prefix real_value w) as [r w'].
    simpl in *. subst r. by exists fake, w'.
Qed.

Lemma allocations_length (k : nat) prefix w :
  length (allocations randbelow k prefix w) = k.
Proof.
  revert w. induction k as [|k IH]; intros w; [done|].
  cbn [allocations].
  destruct (_get_random_number randbelow prefix w) as [r w'].
  simpl. by rewrite IH.
Qed.

(** On a new mapper the first 1000 calls of the allocator for a prefix
    return 1000 different numbers, whatever the generator: no number is
    issued twice while the primary range lasts, and the first fallback
    number is new too. *)
Theorem first_thousand_allocations_distinct g prefix :
  NoDup (allocations randbelow 1000 prefix {| self := init; random := g |}).
Proof.
  apply NoDup_alt. intros i j r Hi Hj.
  pose proof (lookup_lt_Some _ _ _ Hi) as Hli.
  pose proof (lookup_lt_Some _ _ _ Hj) as Hlj.
  rewrite allocations_length in Hli, Hlj.
  destruct (Nat.lt_trichotomy i j) as [Hlt|[Heq|Hgt]]; [|done|].
  - destruct (allocations_differ_within_capacity randbelow g prefix i j);
      [lia|congruence].
  - destruct (allocations_differ_within_capacity randbelow g prefix j i);
      [lia|congruence].
Qed.

(** The prefixes do not touch each other: a call for one prefix leaves the
    used numbers and the table of every other prefix as they were. *)
Theorem prefixes_are_independent w prefix q real_value :
  prefix ≠ q →
  used_of (self (_get_random_number randbelow prefix w).2) q
  = used_of (self w) q
  ∧ mapping_of (self (_get_random_number randbelow prefix w).2) q
    = mapping_of (self w) q
  ∧ used_of (self (get_fake_value randbelow prefix real_value w).2) q
    = used_of (self w) q
  ∧ mapping_of (self (get_fake_value randbelow prefix real_value w).2) q
    = mapping_of (self w) q.
Proof.
  intros Hne. destruct w as [[ms un] g].
  assert (used_of (self (_get_random_number randbelow prefix
            {| self := {| _mappings := ms; _used_numbers := un |};
               random := g |}).2) q
          = used_of {| _mappings := ms; _used_numbers := un |} q) as Hu.
  { destruct (alloc_cases randbelow prefix ms un g)
      as [[_ ->]|(n & g' & _ & ->)]; [done|].
    cbn [snd self]. by rewrite used_of_insert, decide_False. }
  split; [exact Hu|]. split.
  { unfold mapping_of. by rewrite alloc_mappings. }
  destruct (default ∅ (ms !! prefix) !! real_value) as [fake|] eqn:Em.
  - by rewrite (get_fake_value_hit randbelow prefix real_value fake).
  - destruct (get_fake_value_miss randbelow prefix real_value ms un g Em)
      as (n & un' & g' & Ha & ->).
    rewrite Ha in Hu. cbn [snd self] in *. split.
    + exact Hu.
    + by rewrite mapping_of_insert, decide_False.
Qed.

(** The tables after a call of [get_fake_value]: the value has an entry
    under the prefix, and nothing else has changed. *)
Lemma get_fake_value_mappings prefix real_value w :
  ∃ fake,
    _mappings (self (get_fake_value randbelow prefix real_value w).2)
    = <[prefix := <[real_value := fake]> (mapping_of (self w) prefix)]>
        (_mappings (self w)).
Proof.
  destruct (mapping_of (self w) prefix !! real_value) as [fake|] eqn:Em.
  - exists fake.
    rewrite (get_fake_value_hit randbelow prefix real_value fake w Em).
    cbn [snd]. unfold mapping_of in *.
    destruct (_mappings (self w) !! prefix) as [t|] eqn:Et; [|done].
    simpl in *. symmetry. apply insert_id. rewrite Et. f_equal.
    symmetry. by apply insert_id.
  - destruct w as [[ms un] g].
    destruct (get_fake_value_miss randbelow prefix real_value ms un g Em)
      as (n & un' & g' & _ & ->).
    by exists (fake_name prefix n).
Qed.

Lemma run_mappings_untouched (cs : list call) w prefix :
  values_of prefix cs = [] →
  _mappings (self (run randbelow cs w)) !! prefix
  = _mappings (self w) !! prefix.
Proof.
  revert w. induction cs as [|c cs IH]; intros w Hv; [done|].
  cbn [run]. rewrite perform_world. destruct c as [p|p rv]; simpl in Hv.
  - rewrite IH by done. by rewrite alloc_mappings.
  - destruct (decide (p = prefix)) as [->|Hne]; [done|].
    rewrite IH by done.
    destruct (get_fake_value_mappings p rv w) as (fake & ->).
    by rewrite lookup_insert_ne.
Qed.

Lemma run_mappings_dom (cs : list call) w prefix :
  dom (mapping_of (self (run randbelow cs w)) prefix)
  = dom (mapping_of (self w) prefix) ∪ list_to_set (values_of prefix cs).
Proof.
  revert w. induction cs as [|c cs IH]; intros w.
  - simpl. by rewrite (right_id_L ∅ (∪)).
  - cbn [run]. rewrite perform_world, IH. destruct c as [p|p rv]; simpl.
    + unfold mapping_of. by rewrite alloc_mappings.
    + unfold mapping_of at 1.
      destruct (get_fake_value_mappings p rv w) as (fake & ->).
      rewrite lookup_insert.
      destruct (decide (p = prefix)) as [->|Hne]; simpl.
      * rewrite dom_insert_L.
        by rewrite (assoc_L (∪)), (comm_L (∪) (dom _) {[rv]}).
      * done.
Qed.

(** [get_summary] changes nothing and counts, for a prefix, the different
    values that the session has mapped under it; a prefix under which
    nothing was mapped has no entry. *)
Theorem summary_counts_distinct_values g (cs : list call) prefix :
  let w := run randbelow cs {| self := init; random := g |} in
  ∃ summary,
    get_summary w = (Return summary, w)
    ∧ summary !! prefix
      = match values_of prefix cs with
        | [] => None
        | _ => Some (size (list_to_set (values_of prefix cs) : gset string))
        end.
Proof.
  intros w. exists (size <$> _mappings (self w)). split; [done|].
  rewrite lookup_fmap.
  pose proof (run_mappings_dom cs {| self := init; random := g |} prefix)
    as Hdom.
  fold w in Hdom. unfold mapping_of at 2 in Hdom. cbn [self init _mappings] in Hdom.
  rewrite lookup_empty in Hdom. simpl in Hdom. rewrite dom_empty_L in Hdom.
  rewrite (left_id_L ∅ (∪)) in Hdom.
  destruct (values_of prefix cs) as [|v vs] eqn:Ev.
  - unfold w. rewrite run_mappings_untouched by done. reflexivity.
  - unfold mapping_of in Hdom.
    destruct (_mappings (self w) !! prefix) as [t|]; simpl in *.
    + by rewrite <- Hdom, size_dom.
    + rewrite dom_empty_L in Hdom. set_solver.
Qed.

End MapperFacts.

(** * The dialogue *)

(** ** Text *)

Lemma lower_char_space (c : ascii) :
  Ascii.eqb (lower_char c) " " = Ascii.eqb c " ".
Proof. by destruct c as [[] [] [] [] [] [] [] []]. Qed.

Lemma upper_char_space (c : ascii) :
  Ascii.eqb (upper_char c) " " = Ascii.eqb c " ".
Proof. by destruct c as [[] [] [] [] [] [] [] []]. Qed.

Lemma title_from_length (b : bool) (s : string) :
  String.length (title_from b s) = String.length s.
Proof. revert b. induction s as [|c s IH]; intros b; simpl; f_equal; auto. Qed.

Lemma replace_char_length (old new : ascii) (s : string) :
  String.length (replace_char old new s) = String.length s.
Proof. induction s as [|c s IH]; simpl; f_equal; auto. Qed.

Lemma title_from_space (b : bool) (s : string) :
  contains " " (title_from b s) = contains " " s.
Proof.
  revert b. induction s as [|c s IH]; intros b; simpl; [done|].
  rewrite IH. by destruct b; rewrite ?lower_char_space, ?upper_char_space.
Qed.

Lemma replace_char_gone (old new : ascii) (s : string) :
  old ≠ new → contains old (replace_char old new s) = false.
Proof.
  intros Hne. induction s as [|c s IH]; simpl; [done|].
  rewrite IH, orb_false_r.
  destruct (Ascii.eqb_spec c old) as [->|Hc].
  - by apply Ascii.eqb_neq.
  - by apply Ascii.eqb_neq.
Qed.

(** A prefix as step 4 stores it is as long as what was typed, and has no
    space. *)
Lemma clean_prefix_length (prefix : string) :
  String.length (clean_prefix prefix) = String.length prefix.
Proof.
  unfold clean_prefix, title. by rewrite title_from_length, replace_char_length.
Qed.

Lemma clean_prefix_space (prefix : string) :
  contains " " (clean_prefix prefix) = false.
Proof.
  unfold clean_prefix, title. rewrite title_from_space.
  by apply replace_char_gone.
Qed.

Lemma clean_prefix_nonempty (prefix : string) :
  prefix ≠ "" → clean_prefix prefix ≠ "".
Proof.
  intros Hne Hc. pose proof (clean_prefix_length prefix) as Hl.
  rewrite Hc in Hl. by destruct prefix.
Qed.

(** ** Yes or no *)

(** [get_yes_no] passes over the answers that are none of y, yes, n, no
    (blanks around and case apart), and returns on the first that is one of
    them, taking no line beyond it; when no such answer comes, it ends in
    the [EOFError] of [input]. *)
Theorem get_yes_no_first_answer (skipped : list string) :
  Forall (λ line, lower (strip line) ∉ ["y"; "yes"; "n"; "no"]) skipped →
  get_yes_no skipped = (Failure EOFError, [])
  ∧ ∀ line rest,
      lower (strip line) ∈ ["y"; "yes"; "n"; "no"] →
      get_yes_no (skipped ++ line :: rest)
      = (Reply (bool_decide (lower (strip line) ∈ ["y"; "yes"])), rest).
Proof.
  induction 1 as [|bad skipped Hbad _ [IH1 IH2]].
  - split; [done|]. intros line rest Hline. simpl.
    destruct (decide (lower (strip line) ∈ ["y"; "yes"])) as [Hy|Hy].
    + by rewrite !bool_decide_eq_true_2.
    + rewrite (bool_decide_eq_false_2 _ Hy).
      rewrite bool_decide_eq_true_2; [done|].
      set_unfold. naive_solver.
  - assert (get_yes_no (bad :: skipped) = get_yes_no skipped
            ∧ ∀ more, get_yes_no (bad :: skipped ++ more)
                      = get_yes_no (skipped ++ more)) as [E1 E2].
    { simpl. rewrite !bool_decide_eq_false_2; [done|..];
        set_unfold; naive_solver. }
    split; [by rewrite E1|]. intros line rest Hline.
    rewrite <- app_comm_cons, E2. by apply IH2.
Qed.

(** ** Prefixes *)

Lemma ask_prefix_nonblank (stdin : list string) prefix (rest : list string) :
  ask_prefix stdin = (Reply prefix, rest) →
  prefix ≠ "" ∧ contains " " prefix = false.
Proof.
  induction stdin as [|first stdin IH]; simpl; [done|].
  destruct (String.eqb_spec (strip first) "") as [Hblank|Hfull]; [done|].
  intros [= <- <-].
  split; [by apply clean_prefix_nonempty|apply clean_prefix_space].
Qed.

(** [ask_prefix] passes over the blank answers and returns on the first
    answer that is not blank, taking no line beyond it: it returns that
    answer without the blanks around it, cleaned, which is not empty and has
    no space. When only blank answers come, it ends in the [EOFError] of
    [input]. *)
Theorem ask_prefix_clean (skipped : list string) :
  Forall (λ l, strip l = "") skipped →
  ask_prefix skipped = (Failure EOFError, [])
  ∧ ∀ line rest,
      strip line ≠ "" →
      ask_prefix (skipped ++ line :: rest)
      = (Reply (clean_prefix (strip line)), rest)
      ∧ clean_prefix (strip line) ≠ ""
      ∧ contains " " (clean_prefix (strip line)) = false.
Proof.
  induction 1 as [|blank skipped Hblank _ [IH1 IH2]].
  - split; [done|]. intros line rest Hline. simpl.
    destruct (String.eqb_spec (strip line) "") as [|_]; [done|].
    split; [done|].
    split; [by apply clean_prefix_nonempty|apply clean_prefix_space].
  - split.
    + simpl. rewrite Hblank. exact IH1.
    + intros line rest Hline. rewrite <- app_comm_cons. simpl.
      rewrite Hblank. simpl. by apply IH2.
Qed.

Lemma dict_setitem_keys {V} (d : list (string * V)) (key k : string) (value : V) :
  k ∈ (dict_setitem d key value).*1 ↔ k = key ∨ k ∈ d.*1.
Proof.
  induction d as [|[k0 v0] d IH]; simpl.
  - rewrite list_elem_of_singleton. split; [by left|].
    intros [?|?%not_elem_of_nil]; done.
  - destruct (String.eqb_spec k0 key) as [->|Hne]; simpl.
    + rewrite elem_of_cons. tauto.
    + rewrite !elem_of_cons, IH. tauto.
Qed.

Lemma dict_setitem_NoDup {V} (d : list (string * V)) (key : string) (value : V) :
  NoDup d.*1 → NoDup (dict_setitem d key value).*1.
Proof.
  induction d as [|[k0 v0] d IH]; simpl; intros Hnd.
  - apply NoDup_singleton.
  - apply NoDup_cons in Hnd as [Hk0 Hnd].
    destruct (String.eqb_spec k0 key) as [->|Hne]; simpl.
    + by apply NoDup_cons.
    + apply NoDup_cons. split; [|by apply IH].
      rewrite dict_setitem_keys. intros [?|?]; done.
Qed.

Lemma dict_setitem_items {V} (d : list (string * V)) (key k : string)
    (value v : V) :
  (k, v) ∈ dict_setitem d key value → v = value ∨ (k, v) ∈ d.
Proof.
  induction d as [|[k0 v0] d IH]; simpl.
  - intros [= _ ->]%list_elem_of_singleton. by left.
  - destruct (String.eqb_spec k0 key) as [->|Hne].
    + intros [[= _ ->]|Hin]%elem_of_cons; [by left|]. right. by right.
    + intros [[= -> ->]|Hin]%elem_of_cons; [right; left|].
      destruct (IH Hin) as [?|?]; [by left|]. right. by right.
Qed.

Lemma collect_prefixes_spec (selected_columns : list string)
    (column_prefixes result : list (string * string))
    (stdin rest : list string) :
  collect_prefixes selected_columns column_prefixes stdin = (Reply result, rest) →
  NoDup column_prefixes.*1 →
  NoDup result.*1
  ∧ (∀ col, col ∈ result.*1
            ↔ col ∈ selected_columns ∨ col ∈ column_prefixes.*1)
  ∧ (∀ col prefix, (col, prefix) ∈ result →
       (prefix ≠ "" ∧ contains " " prefix = false)
       ∨ (col, prefix) ∈ column_prefixes).
Proof.
  revert column_prefixes stdin.
  induction selected_columns as [|col0 cols IH];
    intros column_prefixes stdin; simpl.
  - intros [= <- <-] Hnd. split; [done|]. split.
    + intros col. rewrite elem_of_nil. tauto.
    + intros col prefix Hin. by right.
  - destruct (ask_prefix stdin) as [[prefix0|e] stdin'] eqn:Hask; [|done].
    intros Hc Hnd.
    destruct (IH _ _ Hc (dict_setitem_NoDup _ col0 prefix0 Hnd))
      as (H1 & H2 & H3).
    split; [done|]. split.
    + intros col. rewrite H2, dict_setitem_keys, elem_of_cons. tauto.
    + intros col prefix Hin. destruct (H3 col prefix Hin) as [?|Hset]; [by left|].
      apply dict_setitem_items in Hset as [->|?]; [|by right].
      left. by destruct (ask_prefix_nonblank stdin prefix0 stdin' Hask).
Qed.

(** The dict that step 4 fills from nothing: its keys are the selected
    columns, each once, whatever was selected twice; every prefix in it is
    not empty and has no space. *)
Theorem collect_prefixes_dict (selected_columns : list string)
    (column_prefixes : list (string * string)) (stdin rest : list string) :
  collect_prefixes selected_columns [] stdin = (Reply column_prefixes, rest) →
  NoDup column_prefixes.*1
  ∧ (∀ col, col ∈ column_prefixes.*1 ↔ col ∈ selected_columns)
  ∧ (∀ col prefix, (col, prefix) ∈ column_prefixes →
       prefix ≠ "" ∧ contains " " prefix = false).
Proof.
  intros Hc.
  destruct (collect_prefixes_spec _ _ _ _ _ Hc (NoDup_nil_2 : NoDup ([] : list (string * string)).*1))
    as (H1 & H2 & H3).
  split; [done|]. split.
  - intros col. rewrite H2. simpl. rewrite elem_of_nil. tauto.
  - intros col prefix Hin. destruct (H3 col prefix Hin) as [?|Hnil]; [done|].
    by apply not_elem_of_nil in Hnil.
Qed.

(** ** The selection *)

Lemma py_index_in_range {A} (l : list A) (num : Z) :
  1 ≤ num ≤ Z.of_nat (length l) →
  ∃ x, py_index l (num - 1) = Some x ∧ l !! Z.to_nat (num - 1) = Some x.
Proof.
  intros Hn. unfold py_index.
  destruct (Z.ltb_spec (num - 1) 0) as [|_]; [lia|].
  destruct (lookup_lt_is_Some_2 l (Z.to_nat (num - 1))) as [x Hx]; [lia|].
  by exists x.
Qed.

Lemma pick_columns_in_range (columns_list : list string) (numbers : list Z)
    (selected : list string) :
  Forall (λ n, 1 ≤ n ≤ Z.of_nat (length columns_list)) numbers →
  ∃ chosen,
    pick_columns columns_list numbers selected
    = Reply (selected ++ chosen, true)
    ∧ Forall2 (λ n col, columns_list !! Z.to_nat (n - 1) = Some col)
        numbers chosen.
Proof.
  intros Hall. revert selected.
  induction Hall as [|num numbers Hnum _ IH]; intros selected; simpl.
  - exists []. by rewrite app_nil_r.
  - destruct (py_index_in_range columns_list num Hnum) as (col & -> & Hcol).
    destruct (Z.leb_spec 1 num); [|lia].
    destruct (Z.leb_spec num (Z.of_nat (length columns_list))); [|lia]. simpl.
    destruct (IH (selected ++ [col])) as (chosen & -> & Hchosen).
    exists (col :: chosen). rewrite <- app_assoc. split; [done|].
    by constructor.
Qed.

Lemma pick_columns_out_of_range (columns_list : list string)
    (good : list Z) (bad : Z) (more : list Z) (selected : list string) :
  Forall (λ n, 1 ≤ n ≤ Z.of_nat (length columns_list)) good →
  ¬ (1 ≤ bad ≤ Z.of_nat (length columns_list)) →
  ∃ chosen,
    pick_columns columns_list (good ++ bad :: more) selected
    = Reply (selected ++ chosen, false)
    ∧ Forall2 (λ n col, columns_list !! Z.to_nat (n - 1) = Some col)
        good chosen.
Proof.
  intros Hall Hbad. revert selected.
  induction Hall as [|num good Hnum _ IH]; intros selected; simpl.
  - exists []. rewrite app_nil_r. split; [|constructor].
    destruct (Z.leb_spec 1 bad);
      destruct (Z.leb_spec bad (Z.of_nat (length columns_list)));
      simpl; try done; lia.
  - destruct (py_index_in_range columns_list num Hnum) as (col & -> & Hcol).
    destruct (Z.leb_spec 1 num); [|lia].
    destruct (Z.leb_spec num (Z.of_nat (length columns_list))); [|lia]. simpl.
    destruct (IH (selected ++ [col])) as (chosen & -> & Hchosen).
    exists (col :: chosen). rewrite <- app_assoc. split; [done|].
    by constructor.
Qed.

(** The loop over the numbers never fails on its subscript, and picks
    columns of the list only. *)
Lemma pick_columns_total (columns_list : list string) (numbers : list Z)
    (selected : list string) :
  (∀ c, c ∈ selected → c ∈ columns_list) →
  ∃ result valid,
    pick_columns columns_list numbers selected = Reply (result, valid)
    ∧ ∀ c, c ∈ result → c ∈ columns_list.
Proof.
  revert selected. induction numbers as [|num numbers IH];
    intros selected Hsel; simpl.
  - by exists selected, true.
  - destruct ((1 <=? num) && (num <=? Z.of_nat (length columns_list)))
      eqn:Hrange.
    + apply andb_true_iff in Hrange as [H1%Z.leb_le H2%Z.leb_le].
      destruct (py_index_in_range columns_list num (conj H1 H2))
        as (col & -> & Hcol).
      apply IH. intros c [Hc|Hc]%elem_of_app; [by apply Hsel|].
      apply list_elem_of_singleton in Hc as ->.
      by apply list_elem_of_lookup_2 in Hcol.
    + by exists selected, false.
Qed.

Section DialogueFacts.

Context (py_int : string → option Z).
Context {G : Type} (randbelow : G → N → N * G).

Lemma select_columns_spec (columns_list selected_columns stdin : list string) :
  (∀ c, c ∈ selected_columns → c ∈ columns_list) →
  match select_columns py_int columns_list selected_columns stdin with
  | (Reply selected, _) => ∀ c, c ∈ selected → c ∈ columns_list
  | (Failure e, _) => e = EOFError
  end.
Proof.
  revert selected_columns.
  induction stdin as [|line rest IH]; intros selected_columns Hsel; simpl;
    [done|].
  destruct (String.eqb (lower (strip line)) "none"); [done|].
  destruct (parse_numbers py_int (strip line)) as [numbers|]; [|by apply IH].
  destruct (pick_columns_total columns_list numbers [])
    as (result & valid & -> & Hres); [by intros c ?%not_elem_of_nil|].
  destruct valid; [done|by apply IH].
Qed.

(** Whatever is typed, the selection of step 3 holds columns of the table
    only, and the loop ends in nothing but its result or the [EOFError] of
    [input]: the subscript [columns_list[num - 1]] is never out of range. *)
Theorem select_columns_safe (columns_list stdin : list string) :
  match select_columns py_int columns_list [] stdin with
  | (Reply selected, _) => ∀ c, c ∈ selected → c ∈ columns_list
  | (Failure e, _) => e = EOFError
  end.
Proof. apply select_columns_spec. by intros c ?%not_elem_of_nil. Qed.

(** An answer of column numbers that are all in range is accepted at once:
    the selection is the columns of these numbers, in the order typed, a
    column typed twice being there twice. *)
Theorem select_columns_accepts (columns_list selected_columns : list string)
    (line : string) (rest : list string) (numbers : list Z) :
  lower (strip line) ≠ "none" →
  parse_numbers py_int (strip line) = Some numbers →
  Forall (λ n, 1 ≤ n ≤ Z.of_nat (length columns_list)) numbers →
  ∃ selected,
    select_columns py_int columns_list selected_columns (line :: rest)
    = (Reply selected, rest)
    ∧ Forall2 (λ n col, columns_list !! Z.to_nat (n - 1) = Some col)
        numbers selected.
Proof.
  intros Hnone Hparse Hall. simpl.
  destruct (String.eqb_spec (lower (strip line)) "none"); [done|].
  rewrite Hparse.
  destruct (pick_columns_in_range columns_list numbers [] Hall)
    as (chosen & -> & Hchosen).
  by exists chosen.
Qed.

(** An answer with a number out of range is rejected, but the columns of
    the numbers before it stay in [selected_columns]: when the next answer
    is none, the loop ends with these columns selected, not with none. *)
Theorem select_columns_none_after_rejection
    (columns_list selected_columns : list string) (line none : string)
    (rest : list string) (good : list Z) (bad : Z) (more : list Z) :
  lower (strip line) ≠ "none" →
  parse_numbers py_int (strip line) = Some (good ++ bad :: more) →
  Forall (λ n, 1 ≤ n ≤ Z.of_nat (length columns_list)) good →
  ¬ (1 ≤ bad ≤ Z.of_nat (length columns_list)) →
  lower (strip none) = "none" →
  ∃ selected,
    select_columns py_int columns_list selected_columns (line :: none :: rest)
    = (Reply selected, rest)
    ∧ Forall2 (λ n col, columns_list !! Z.to_nat (n - 1) = Some col)
        good selected.
Proof.
  intros Hline Hparse Hgood Hbad Hnone. cbn [select_columns].
  destruct (String.eqb_spec (lower (strip line)) "none"); [done|].
  rewrite Hparse.
  destruct (pick_columns_out_of_range columns_list good bad more [] Hgood Hbad)
    as (chosen & -> & Hchosen).
  rewrite Hnone. simpl. by exists chosen.
Qed.

Lemma get_yes_no_failure (stdin rest : list string) (e : console_exn) :
  get_yes_no stdin = (Failure e, rest) → e = EOFError.
Proof.
  induction stdin as [|line stdin IH]; simpl; [by intros [= <- _]|].
  destruct (bool_decide _); [done|]. by destruct (bool_decide _).
Qed.

Lemma ask_prefix_failure (stdin rest : list string) (e : console_exn) :
  ask_prefix stdin = (Failure e, rest) → e = EOFError.
Proof.
  induction stdin as [|line stdin IH]; simpl; [by intros [= <- _]|].
  by destruct (String.eqb _ _).
Qed.

Lemma collect_prefixes_failure (selected_columns : list string)
    (column_prefixes : list (string * string)) (stdin rest : list string)
    (e : console_exn) :
  collect_prefixes selected_columns column_prefixes stdin = (Failure e, rest) →
  e = EOFError.
Proof.
  revert column_prefixes stdin.
  induction selected_columns as [|col cols IH];
    intros column_prefixes stdin; simpl; [done|].
  destruct (ask_prefix stdin) as [[prefix|e'] stdin'] eqn:Hask.
  - apply IH.
  - intros [= <- _]. by apply ask_prefix_failure in Hask.
Qed.

End DialogueFacts.

(** ** From the selection to the replacement *)

Section FlowFacts.

Context (py_int : string → option Z).
Context {G : Type} (randbelow : G → N → N * G).

Local Abbreviation World := (@World G).
Implicit Types (w : World) (df : DataFrame) (g : G).

Lemma series_calls_values (p prefix : string) (series : list cell) :
  p ≠ prefix → values_of p (series_calls prefix series) = [].
Proof.
  intros Hne. unfold series_calls.
  induction (dropna series) as [|value rest IH]; simpl; [done|].
  by rewrite decide_False.
Qed.

(** The loop of step 6 makes tables for the prefixes it is given only. *)
Lemma replace_columns_prefixes (column_prefixes : list (string * string))
    df w (p : string) :
  is_Some (_mappings (self (replace_columns randbelow column_prefixes df w).2)
             !! p) →
  is_Some (_mappings (self w) !! p) ∨ p ∈ column_prefixes.*2.
Proof.
  revert df w.
  induction column_prefixes as [|[col prefix] rest IH]; intros df w; simpl.
  - by left.
  - destruct (df_getitem df col) as [series|] eqn:Hget; [|by left].
    destruct (series_apply_spec randbelow prefix series w) as (out & -> & _).
    intros Hp. destruct (IH _ _ Hp) as [Hw1|Hrest]; [|right; by right].
    destruct (decide (p = prefix)) as [->|Hne]; [right; left|].
    left. by rewrite run_mappings_untouched in Hw1
      by by apply series_calls_values.
Qed.

(** However the dialogue goes, steps 3 to 6 end in one of four ways: the
    input runs out, and the frame is as it was; no column is selected, or
    the user does not confirm, and the frame is as it was; or step 6 runs,
    and then it ends normally, with the column names and the lengths of the
    columns kept. A subscript out of range or a [KeyError] never comes. *)
Theorem interactive_steps_safe df (stdin : list string) g :
  let result := interactive_steps py_int randbelow df stdin g in
  match result.1.1 with
  | ConsoleFailure e => e = EOFError ∧ result.1.2 = df
  | NoColumnsSelected | Cancelled => result.1.2 = df
  | Replaced r w =>
      r = Return tt
      ∧ result.1.2.*1 = df.*1
      ∧ Forall2 (λ a b, length a.2 = length b.2) df result.1.2
  end.
Proof.
  unfold interactive_steps.
  pose proof (select_columns_spec py_int df.*1 [] stdin) as Hsel.
  destruct (select_columns py_int df.*1 [] stdin)
    as [[selected|e] stdin1]; simpl.
  2: { split; [|done]. apply Hsel. by intros c ?%not_elem_of_nil. }
  specialize (Hsel ltac:(by intros c ?%not_elem_of_nil)).
  destruct selected as [|col selected]; [done|].
  destruct (collect_prefixes (col :: selected) [] stdin1)
    as [[column_prefixes|e] stdin2] eqn:Hc; simpl.
  2: { split; [|done]. by apply collect_prefixes_failure in Hc. }
  destruct (collect_prefixes_spec _ _ _ _ _ Hc
              (NoDup_nil_2 : NoDup ([] : list (string * string)).*1))
    as (_ & Hkeys & _).
  destruct (get_yes_no stdin2) as [[[|]|e] stdin3] eqn:Hy; simpl.
  - destruct (replace_columns_valid randbelow column_prefixes df
                {| self := init; random := g |})
      as (df' & cs & Hrun & Hnames & Hlen & _).
    { intros c Hcin. apply Hsel. apply Hkeys in Hcin as [?|?%not_elem_of_nil];
        done. }
    unfold interactive_pseudonymize. rewrite Hrun. simpl. by repeat split.
  - done.
  - split; [|done]. by apply get_yes_no_failure in Hy.
Qed.

(** When step 6 runs at the end of the dialogue, every prefix under which
    the mapper holds a table is one the user typed, cleaned: it is not
    empty and has no space. The empty prefix does not reach the mapper. *)
Theorem interactive_steps_prefixes df (stdin : list string) g :
  match (interactive_steps py_int randbelow df stdin g).1.1 with
  | Replaced r w =>
      ∀ p, is_Some (_mappings (self w) !! p) →
           p ≠ "" ∧ contains " " p = false
  | _ => True
  end.
Proof.
  unfold interactive_steps.
  destruct (select_columns py_int df.*1 [] stdin)
    as [[selected|e] stdin1]; simpl; [|done].
  destruct selected as [|col selected]; [done|].
  destruct (collect_prefixes (col :: selected) [] stdin1)
    as [[column_prefixes|e] stdin2] eqn:Hc; simpl; [|done].
  destruct (collect_prefixes_spec _ _ _ _ _ Hc
              (NoDup_nil_2 : NoDup ([] : list (string * string)).*1))
    as (_ & _ & Hclean).
  destruct (get_yes_no stdin2) as [[[|]|e] stdin3]; simpl; [|done..].
  unfold interactive_pseudonymize.
  pose proof (replace_columns_prefixes column_prefixes df
                {| self := init; random := g |}) as Hp.
  destruct (replace_columns randbelow column_prefixes df _) as [[r df'] w].
  simpl in *. intros p Hsome.
  destruct (Hp p Hsome) as [Hinit|Hin].
  - rewrite lookup_empty in Hinit. by destruct Hinit.
  - apply list_elem_of_fmap in Hin as ([c q] & -> & Hin). simpl.
    destruct (Hclean c q Hin) as [?|?%not_elem_of_nil]; done.
Qed.

(** ** One mapper for the whole table *)

(** In the columns that step 6 replaces under one prefix, two cells with the
    same text, in one column or in two, an integer and its numeral alike,
    get the same name. *)
Theorem same_text_same_name (column_prefixes : list (string * string)) df g
    (col1 col2 prefix : string) (series1 series2 : list cell)
    (i1 i2 : nat) (value1 value2 : cell) :
  NoDup column_prefixes.*1 →
  (∀ col, col ∈ column_prefixes.*1 → col ∈ df.*1) →
  (col1, prefix) ∈ column_prefixes → (col2, prefix) ∈ column_prefixes →
  df_getitem df col1 = Some series1 → df_getitem df col2 = Some series2 →
  series1 !! i1 = Some value1 → series2 !! i2 = Some value2 →
  isna value1 = false → isna value2 = false →
  str_cell value1 = str_cell value2 →
  let df' := (interactive_pseudonymize randbelow column_prefixes df g).1.2 in
  ∃ out1 out2 fake,
    df_getitem df' col1 = Some out1 ∧ df_getitem df' col2 = Some out2
    ∧ out1 !! i1 = Some (Text fake) ∧ out2 !! i2 = Some (Text fake).
Proof.
  intros Hnd Hall Hin1 Hin2 Hget1 Hget2 Hi1 Hi2 Hna1 Hna2 Hstr df'.
  unfold df', interactive_pseudonymize.
  set (w := {| self := init; random := g |}).
  destruct (replace_columns_assigned randbelow column_prefixes df w
              col1 prefix series1 Hnd Hall Hin1 Hget1) as (out1 & Ho1 & Hr1).
  destruct (replace_columns_assigned randbelow column_prefixes df w
              col2 prefix series2 Hnd Hall Hin2 Hget2) as (out2 & Ho2 & Hr2).
  destruct (Forall2_lookup_l _ _ _ _ _ Hr1 Hi1) as (y1 & Hy1 & Hrep1).
  destruct (Forall2_lookup_l _ _ _ _ _ Hr2 Hi2) as (y2 & Hy2 & Hrep2).
  unfold replaced in Hrep1, Hrep2. rewrite Hna1 in Hrep1. rewrite Hna2 in Hrep2.
  destruct Hrep1 as (f1 & -> & Hm1). destruct Hrep2 as (f2 & -> & Hm2).
  rewrite Hstr in Hm1. exists out1, out2, f1.
  split; [done|]. split; [done|]. split; [done|]. congruence.
Qed.

(** In the columns that step 6 replaces under one prefix, two cells with
    different texts get different names, when fewer than 999 numbers are
    used for the prefix at the end. *)
Theorem different_text_different_name
    (column_prefixes : list (string * string)) df g
    (col1 col2 prefix : string) (series1 series2 : list cell)
    (i1 i2 : nat) (value1 value2 : cell) :
  NoDup column_prefixes.*1 →
  (∀ col, col ∈ column_prefixes.*1 → col ∈ df.*1) →
  (col1, prefix) ∈ column_prefixes → (col2, prefix) ∈ column_prefixes →
  df_getitem df col1 = Some series1 → df_getitem df col2 = Some series2 →
  series1 !! i1 = Some value1 → series2 !! i2 = Some value2 →
  isna value1 = false → isna value2 = false →
  str_cell value1 ≠ str_cell value2 →
  let result := interactive_pseudonymize randbelow column_prefixes df g in
  (size (used_of (self result.2) prefix) < 999)%nat →
  ∃ out1 out2 fake1 fake2,
    df_getitem result.1.2 col1 = Some out1
    ∧ df_getitem result.1.2 col2 = Some out2
    ∧ out1 !! i1 = Some (Text fake1) ∧ out2 !! i2 = Some (Text fake2)
    ∧ fake1 ≠ fake2.
Proof.
  intros Hnd Hall Hin1 Hin2 Hget1 Hget2 Hi1 Hi2 Hna1 Hna2 Hstr result.
  unfold result, interactive_pseudonymize.
  set (w := {| self := init; random := g |}).
  destruct (replace_columns_assigned randbelow column_prefixes df w
              col1 prefix series1 Hnd Hall Hin1 Hget1) as (out1 & Ho1 & Hr1).
  destruct (replace_columns_assigned randbelow column_prefixes df w
              col2 prefix series2 Hnd Hall Hin2 Hget2) as (out2 & Ho2 & Hr2).
  destruct (replace_columns_valid randbelow column_prefixes df w Hall)
    as (df' & cs & Hrun & _).
  rewrite Hrun in *. cbn [fst snd] in *. intros Hsz.
  assert (session_inv (self (run randbelow cs w))) as Hinv
    by apply session_inv_run, session_inv_init.
  destruct (Forall2_lookup_l _ _ _ _ _ Hr1 Hi1) as (y1 & Hy1 & Hrep1).
  destruct (Forall2_lookup_l _ _ _ _ _ Hr2 Hi2) as (y2 & Hy2 & Hrep2).
  unfold replaced in Hrep1, Hrep2. rewrite Hna1 in Hrep1. rewrite Hna2 in Hrep2.
  destruct Hrep1 as (f1 & -> & Hm1). destruct Hrep2 as (f2 & -> & Hm2).
  exists out1, out2, f1, f2. do 4 (split; [done|]).
  intros <-. destruct (Hinv prefix) as (Hrange & Hnames & Hone).
  apply Hstr, (Hone _ _ f1 Hm1 Hm2).
  destruct (Hnames _ _ Hm1) as (k & -> & [Hk|[_ Hfull]]); [|lia].
  intros Hk'. apply fake_name_inj in Hk'; specialize (Hrange k Hk); lia.
Qed.

End FlowFacts.

(** ** The tables that step 6 leaves *)

Section TablesAfter.

Context {G : Type} (randbelow : G → N → N * G).

Local Abbreviation World := (@World G).
Implicit Types (w : World) (df : DataFrame) (g : G).

Lemma values_of_app (p : string) (cs cs' : list call) :
  values_of p (cs ++ cs') = values_of p cs ++ values_of p cs'.
Proof.
  induction cs as [|c cs IH]; simpl; [done|].
  destruct c as [q|q v]; [done|]. destruct (decide (q = p)); [|done].
  simpl. by rewrite IH.
Qed.

Lemma values_of_series_calls (p prefix : string) (series : list cell) :
  values_of p (series_calls prefix series)
  = if decide (prefix = p) then str_cell <$> dropna series else [].
Proof.
  unfold series_calls.
  induction (dropna series) as [|value rest IH]; simpl.
  - by destruct (decide (prefix = p)).
  - destruct (decide (prefix = p)); [|done]. simpl. by rewrite IH.
Qed.

Lemma values_of_table_calls (p : string)
    (column_prefixes : list (string * string)) df :
  values_of p (table_calls column_prefixes df)
  = texts_under p column_prefixes df.
Proof.
  unfold table_calls, texts_under.
  induction column_prefixes as [|[col prefix] rest IH]; simpl; [done|].
  by rewrite values_of_app, values_of_series_calls, IH.
Qed.

Lemma table_calls_setitem (column_prefixes : list (string * string)) df
    (col : string) (series : list cell) :
  col ∉ column_prefixes.*1 →
  table_calls column_prefixes (df_setitem df col series)
  = table_calls column_prefixes df.
Proof.
  unfold table_calls.
  induction column_prefixes as [|[c prefix] rest IH]; simpl; [done|].
  intros [Hne Hrest]%not_elem_of_cons.
  rewrite df_getitem_setitem_ne by done. by rewrite IH.
Qed.

(** Step 6 on columns that are there, each named once: the mapper ends as
    after the calls for the cells of the frame it was given. *)
Lemma replace_columns_calls (column_prefixes : list (string * string)) df w :
  NoDup column_prefixes.*1 →
  (∀ col, col ∈ column_prefixes.*1 → col ∈ df.*1) →
  (replace_columns randbelow column_prefixes df w).2
  = run randbelow (table_calls column_prefixes df) w.
Proof.
  revert df w.
  induction column_prefixes as [|[col prefix] rest IH]; intros df w Hnd Hall.
  - done.
  - simpl in Hnd. apply NoDup_cons in Hnd as [Hfresh Hnd].
    assert (col ∈ df.*1) as Hcol by (apply Hall; simpl; left).
    destruct (proj2 (df_getitem_names df col) Hcol) as [series Hget].
    destruct (replace_columns_step randbelow col prefix rest df w series Hget)
      as (out & _ & ->).
    rewrite IH; [|done|].
    + rewrite table_calls_setitem by done.
      unfold table_calls at 2. cbn [flat_map fst snd]. rewrite Hget.
      cbn [default]. by rewrite run_app.
    + intros c Hc. rewrite df_setitem_names by done. apply Hall. simpl.
      by right.
Qed.

(** After step 6 on columns that are there, each named once, the table of a
    prefix has an entry for each text of the cells that are not missing in
    the columns given that prefix, and for nothing else; [get_summary]
    counts these texts, each once. *)
Theorem step6_tables_hold_the_texts
    (column_prefixes : list (string * string)) df g (prefix : string) :
  NoDup column_prefixes.*1 →
  (∀ col, col ∈ column_prefixes.*1 → col ∈ df.*1) →
  let w' := (interactive_pseudonymize randbelow column_prefixes df g).2 in
  dom (mapping_of (self w') prefix)
  = list_to_set (texts_under prefix column_prefixes df)
  ∧ (get_summary w').1
    = Return (size <$> _mappings (self w'))
  ∧ (size <$> _mappings (self w')) !! prefix
    = match texts_under prefix column_prefixes df with
      | [] => None
      | texts => Some (size (list_to_set texts : gset string))
      end.
Proof.
  intros Hnd Hall w'. unfold w', interactive_pseudonymize.
  rewrite replace_columns_calls by done.
  set (w0 := {| self := init; random := g |}).
  pose proof (run_mappings_dom randbelow (table_calls column_prefixes df)
                w0 prefix) as Hdom.
  rewrite values_of_table_calls in Hdom.
  unfold mapping_of at 2 in Hdom. cbn [self w0 init _mappings] in Hdom.
  rewrite lookup_empty in Hdom. cbn [default] in Hdom.
  rewrite dom_empty_L, (left_id_L ∅ (∪)) in Hdom.
  split; [exact Hdom|]. split; [done|].
  rewrite lookup_fmap.
  destruct (texts_under prefix column_prefixes df) as [|t ts] eqn:Et.
  - rewrite run_mappings_untouched
      by by rewrite values_of_table_calls.
    reflexivity.
  - unfold mapping_of in Hdom.
    destruct (_mappings (self (run randbelow _ w0)) !! prefix) as [m|];
      simpl in *.
    + by rewrite <- Hdom, size_dom.
    + rewrite dom_empty_L in Hdom. exfalso.
      assert (t ∈ (∅ : gset string)) as Hin
        by (rewrite Hdom; apply elem_of_union; left; by apply elem_of_singleton).
      by apply not_elem_of_empty in Hin.
Qed.

End TablesAfter.

(** ** The sample shown for a column *)

Lemma substring_length (n : nat) (s : string) :
  (n ≤ String.length s)%nat → String.length (substring 0 n s) = n.
Proof.
  revert s. induction n as [|n IH]; intros s Hn.
  - by destruct s.
  - destruct s as [|c s]; simpl in *; [lia|]. f_equal. apply IH. lia.
Qed.

Lemma substring_prefix (n : nat) (s : string) :
  (n ≤ String.length s)%nat → ∃ tail, s = substring 0 n s +:+ tail.
Proof.
  revert s. induction n as [|n IH]; intros s Hn.
  - exists s. by destruct s.
  - destruct s as [|c s]; simpl in *; [lia|].
    destruct (IH s) as [tail Htail]; [lia|].
    exists tail. rewrite append_cons. by f_equal.
Qed.

(** The sample that step 2 shows is never longer than 30 characters: a
    value of at most 30 characters is shown as it is, and a longer one as
    its first 27 characters followed by three dots. *)
Theorem truncate_sample_bound (sample_str : string) :
  (String.length (truncate_sample sample_str) ≤ 30)%nat
  ∧ ((String.length sample_str ≤ 30)%nat →
     truncate_sample sample_str = sample_str)
  ∧ ((30 < String.length sample_str)%nat →
     ∃ head tail,
       sample_str = head +:+ tail
       ∧ String.length head = 27%nat
       ∧ truncate_sample sample_str = head +:+ "...").
Proof.
  unfold truncate_sample.
  destruct (Nat.ltb_spec 30 (String.length sample_str)) as [Hlong|Hshort].
  - assert (String.length (substring 0 27 sample_str) = 27%nat) as Hhead
      by (apply substring_length; lia).
    split; [|split; [lia|]].
    + rewrite append_length, Hhead. simpl. lia.
    + intros _. destruct (substring_prefix 27 sample_str) as [tail Htail];
        [lia|].
      by exists (substring 0 27 sample_str), tail.
  - split; [done|]. split; [done|]. lia.
Qed.

(** ** The dialogue at work *)

(** Two columns picked, two prefixes typed after a blank line, a first
    answer that is neither yes nor no, then yes. *)
Example demo_dialogue :
  (interactive_steps decimal_int lcg demo_frame
     ["2, 1"; ""; " amount kind"; "vendor"; "maybe"; " Y "; "left"] 42%N).1.2
  = [("Vendor", [Text "Vendor_487"; NaN; Text "Vendor_884"; Text "Vendor_487"]);
     ("Amount", [Text "Amount_Kind_101"; Text "Amount_Kind_068"; PyNone;
                 Text "Amount_Kind_317"])].
Proof. vm_compute. reflexivity. Qed.

(** A call for one prefix and the state of another. *)
Lemma prefixes_are_independent_witness :
  let w := (get_fake_value lcg "Program" "Apollo" (fresh 42)).2 in
  "Vendor" ≠ "Program"
  ∧ used_of (self (_get_random_number lcg "Vendor" w).2) "Program"
    = used_of (self w) "Program"
  ∧ mapping_of (self (_get_random_number lcg "Vendor" w).2) "Program"
    = mapping_of (self w) "Program"
  ∧ used_of (self (get_fake_value lcg "Vendor" "Acme" w).2) "Program"
    = used_of (self w) "Program"
  ∧ mapping_of (self (get_fake_value lcg "Vendor" "Acme" w).2) "Program"
    = mapping_of (self w) "Program".
Proof.
  intros w. assert ("Vendor" ≠ "Program") as Hne by discriminate.
  split; [exact Hne|].
  exact (prefixes_are_independent lcg w "Vendor" "Program" "Acme" Hne).
Defined.

(** Two answers passed over, then a no. *)
Lemma get_yes_no_first_answer_witness :
  Forall (λ line, lower (strip line) ∉ ["y"; "yes"; "n"; "no"]) ["maybe"; " "]
  ∧ get_yes_no ["maybe"; " "] = (Failure EOFError, [])
  ∧ ∀ line rest,
      lower (strip line) ∈ ["y"; "yes"; "n"; "no"] →
      get_yes_no (["maybe"; " "] ++ line :: rest)
      = (Reply (bool_decide (lower (strip line) ∈ ["y"; "yes"])), rest).
Proof.
  assert (Forall (λ line, lower (strip line) ∉ ["y"; "yes"; "n"; "no"])
            ["maybe"; " "]) as Hskip.
  { apply (bool_decide_unpack _). vm_compute. exact I. }
  split; [exact Hskip|].
  exact (get_yes_no_first_answer ["maybe"; " "] Hskip).
Defined.

(** Two blank lines passed over. *)
Lemma ask_prefix_clean_witness :
  Forall (λ l, strip l = "") [" "; ""]
  ∧ ask_prefix [" "; ""] = (Failure EOFError, [])
  ∧ ∀ line rest,
      strip line ≠ "" →
      ask_prefix ([" "; ""] ++ line :: rest)
      = (Reply (clean_prefix (strip line)), rest)
      ∧ clean_prefix (strip line) ≠ ""
      ∧ contains " " (clean_prefix (strip line)) = false.
Proof.
  assert (Forall (λ l, strip l = "") [" "; ""]) as Hblank
    by (repeat constructor).
  split; [exact Hblank|].
  exact (ask_prefix_clean [" "; ""] Hblank).
Defined.

(** A blank line, then a prefix of two words. *)
Example ask_prefix_demo :
  ask_prefix [" "; " big vendor "; "y"] = (Reply "Big_Vendor", ["y"]).
Proof. vm_compute. reflexivity. Qed.

(** A column selected twice gets the prefix typed last. *)
Lemma collect_prefixes_dict_witness :
  collect_prefixes ["Vendor"; "Amount"; "Vendor"] []
    ["vendor"; "amount"; "org"; "y"]
  = (Reply [("Vendor", "Org"); ("Amount", "Amount")], ["y"])
  ∧ NoDup [("Vendor", "Org"); ("Amount", "Amount")].*1
  ∧ (∀ col, col ∈ [("Vendor", "Org"); ("Amount", "Amount")].*1
            ↔ col ∈ ["Vendor"; "Amount"; "Vendor"])
  ∧ (∀ col prefix, (col, prefix) ∈ [("Vendor", "Org"); ("Amount", "Amount")] →
       prefix ≠ "" ∧ contains " " prefix = false).
Proof.
  assert (collect_prefixes ["Vendor"; "Amount"; "Vendor"] []
            ["vendor"; "amount"; "org"; "y"]
          = (Reply [("Vendor", "Org"); ("Amount", "Amount")], ["y"])) as Hc
    by (vm_compute; reflexivity).
  split; [exact Hc|].
  exact (collect_prefixes_dict _ _ _ _ Hc).
Defined.

(** The answer "3, 1, 3" on three columns. *)
Lemma select_columns_accepts_witness :
  lower (strip " 3, 1,3 ") ≠ "none"
  ∧ parse_numbers decimal_int (strip " 3, 1,3 ") = Some [3; 1; 3]
  ∧ Forall (λ n, 1 ≤ n ≤ Z.of_nat (length ["Vendor"; "Amount"; "Date"]))
      [3; 1; 3]
  ∧ ∃ selected,
      select_columns decimal_int ["Vendor"; "Amount"; "Date"] []
        [" 3, 1,3 "; "y"]
      = (Reply selected, ["y"])
      ∧ Forall2 (λ n col, ["Vendor"; "Amount"; "Date"] !! Z.to_nat (n - 1)
                          = Some col)
          [3; 1; 3] selected.
Proof.
  assert (lower (strip " 3, 1,3 ") ≠ "none") as Hnone
    by (vm_compute; discriminate).
  assert (parse_numbers decimal_int (strip " 3, 1,3 ") = Some [3; 1; 3])
    as Hparse by (vm_compute; reflexivity).
  assert (Forall (λ n, 1 ≤ n ≤ Z.of_nat (length ["Vendor"; "Amount"; "Date"]))
            [3; 1; 3]) as Hall
    by (repeat constructor; simpl; lia).
  split; [exact Hnone|]. split; [exact Hparse|]. split; [exact Hall|].
  exact (select_columns_accepts decimal_int ["Vendor"; "Amount"; "Date"] []
           " 3, 1,3 " ["y"] [3; 1; 3] Hnone Hparse Hall).
Defined.

(** The answer "1, 99" on three columns, then none: the first column stays
    selected. *)
Lemma select_columns_none_after_rejection_witness :
  lower (strip "1, 99") ≠ "none"
  ∧ parse_numbers decimal_int (strip "1, 99") = Some ([1] ++ 99 :: [])
  ∧ Forall (λ n, 1 ≤ n ≤ Z.of_nat (length ["Vendor"; "Amount"; "Date"])) [1]
  ∧ ¬ (1 ≤ 99 ≤ Z.of_nat (length ["Vendor"; "Amount"; "Date"]))
  ∧ lower (strip "None") = "none"
  ∧ ∃ selected,
      select_columns decimal_int ["Vendor"; "Amount"; "Date"] []
        ["1, 99"; "None"; "y"]
      = (Reply selected, ["y"])
      ∧ Forall2 (λ n col, ["Vendor"; "Amount"; "Date"] !! Z.to_nat (n - 1)
                          = Some col)
          [1] selected.
Proof.
  assert (lower (strip "1, 99") ≠ "none") as Hline
    by (vm_compute; discriminate).
  assert (parse_numbers decimal_int (strip "1, 99") = Some ([1] ++ 99 :: []))
    as Hparse by (vm_compute; reflexivity).
  assert (Forall (λ n, 1 ≤ n ≤ Z.of_nat (length ["Vendor"; "Amount"; "Date"]))
            [1]) as Hgood
    by (repeat constructor; simpl; lia).
  assert (¬ (1 ≤ 99 ≤ Z.of_nat (length ["Vendor"; "Amount"; "Date"])))
    as Hbad by (simpl; lia).
  assert (lower (strip "None") = "none") as Hnone by (vm_compute; reflexivity).
  split; [exact Hline|]. split; [exact Hparse|]. split; [exact Hgood|].
  split; [exact Hbad|]. split; [exact Hnone|].
  exact (select_columns_none_after_rejection decimal_int
           ["Vendor"; "Amount"; "Date"] [] "1, 99" "None" ["y"] [1] 99 []
           Hline Hparse Hgood Hbad Hnone).
Defined.

Lemma demo_shared_well_formed :
  NoDup demo_shared_columns.*1
  ∧ ∀ col, col ∈ demo_shared_columns.*1 → col ∈ demo_shared_frame.*1.
Proof.
  split.
  - apply (bool_decide_unpack _). vm_compute. exact I.
  - simpl. intros col Hcol. exact Hcol.
Defined.

(** The integer 7 of one column and the numeral "7" of another. *)
Lemma same_text_same_name_witness :
  ∃ out1 out2 fake,
    df_getitem (interactive_pseudonymize lcg demo_shared_columns
                  demo_shared_frame 42%N).1.2 "Vendor" = Some out1
    ∧ df_getitem (interactive_pseudonymize lcg demo_shared_columns
                    demo_shared_frame 42%N).1.2 "Subcontractor" = Some out2
    ∧ out1 !! 1%nat = Some (Text fake) ∧ out2 !! 0%nat = Some (Text fake).
Proof.
  destruct demo_shared_well_formed as [Hnd Hall].
  refine (same_text_same_name lcg demo_shared_columns demo_shared_frame 42%N
            "Vendor" "Subcontractor" "Org"
            [Text "Acme"; Number 7; NaN] [Text "7"; Text "Boeing"; Text "Acme"]
            1 0 (Number 7) (Text "7") Hnd Hall _ _ _ _ _ _ _ _ _).
  - left.
  - right. left.
  - reflexivity.
  - reflexivity.
  - reflexivity.
  - reflexivity.
  - reflexivity.
  - reflexivity.
  - vm_compute. reflexivity.
Defined.

(** Acme and Boeing. *)
Lemma different_text_different_name_witness :
  ∃ out1 out2 fake1 fake2,
    df_getitem (interactive_pseudonymize lcg demo_shared_columns
                  demo_shared_frame 42%N).1.2 "Vendor" = Some out1
    ∧ df_getitem (interactive_pseudonymize lcg demo_shared_columns
                    demo_shared_frame 42%N).1.2 "Subcontractor" = Some out2
    ∧ out1 !! 0%nat = Some (Text fake1) ∧ out2 !! 1%nat = Some (Text fake2)
    ∧ fake1 ≠ fake2.
Proof.
  destruct demo_shared_well_formed as [Hnd Hall].
  refine (different_text_different_name lcg demo_shared_columns
            demo_shared_frame 42%N "Vendor" "Subcontractor" "Org"
            [Text "Acme"; Number 7; NaN] [Text "7"; Text "Boeing"; Text "Acme"]
            0 1 (Text "Acme") (Text "Boeing") Hnd Hall _ _ _ _ _ _ _ _ _ _).
  - left.
  - right. left.
  - reflexivity.
  - reflexivity.
  - reflexivity.
  - reflexivity.
  - reflexivity.
  - reflexivity.
  - discriminate.
  - apply Nat.ltb_lt. vm_compute. reflexivity.
Defined.

(** Three texts under the one prefix of the two columns. *)
Lemma step6_tables_hold_the_texts_witness :
  let w' := (interactive_pseudonymize lcg demo_shared_columns
               demo_shared_frame 42%N).2 in
  dom (mapping_of (self w') "Org")
  = list_to_set (texts_under "Org" demo_shared_columns demo_shared_frame)
  ∧ (get_summary w').1 = Return (size <$> _mappings (self w'))
  ∧ (size <$> _mappings (self w')) !! "Org"
    = match texts_under "Org" demo_shared_columns demo_shared_frame with
      | [] => None
      | texts => Some (size (list_to_set texts : gset string))
      end.
Proof.
  destruct demo_shared_well_formed as [Hnd Hall].
  exact (step6_tables_hold_the_texts lcg demo_shared_columns
           demo_shared_frame 42%N "Org" Hnd Hall).
Defined.
